(** * ARMv7 assembler text generator ([armv7l.py]): model and properties

    The development embeds the operand model, the instruction record, the
    instruction-stream builder, the system-call helper and the two program
    generators of [armv7l.py], and proves the rendering properties of its
    specification and further properties read off the code.

    Conventions of the embedding:
    - a Python [str] is a [string]; its characters are the code points
      below 256, and [isspace] is Python's [str.isspace] on that range;
    - a Python [int] is a [Z], printed in decimal by [str_int];
    - an exception is a value of [exn]; a rendering that may raise returns a
      [result];
    - the builder object [Asm] is its only attribute, the list [lines]; a
      method is a function from the lines before the call to the outcome of
      the call and the lines after it, so that the lines are still there to
      be looked at after a call has raised. *)

From Stdlib Require Import ZArith List String Ascii Bool Lia DecimalString.
From Stdlib Require QArith DecimalPos DecimalZ.
Import ListNotations.
Open Scope string_scope.

(** ** Python primitives used by the source *)

(** [ch.isspace()] for a code point below 256: the ASCII controls TAB, LF,
    VT, FF, CR, the separators FS, GS, RS, US, the space, NEL (0x85) and the
    no-break space (0xA0). *)
Definition isspace (ch : ascii) : bool :=
  let n := N_of_ascii ch in
  ((9 <=? n) && (n <=? 13) || (28 <=? n) && (n <=? 32)
   || (n =? 133) || (n =? 160))%N.

(** [s.rstrip()]: [s] without its trailing whitespace. *)
Fixpoint rstrip (s : string) : string :=
  match s with
  | EmptyString => EmptyString
  | String ch rest =>
      match rstrip rest with
      | EmptyString => if isspace ch then EmptyString else String ch EmptyString
      | kept => String ch kept
      end
  end.

(** [sep.join(parts)]. *)
Definition join (sep : string) (parts : list string) : string :=
  String.concat sep parts.

(** [s.endswith(suffix)]. *)
Definition endswith (s suffix : string) : bool :=
  let n := String.length s in
  let m := String.length suffix in
  (m <=? n)%nat && (substring (n - m) m s =? suffix).

(** [str(n)] for an [int]: decimal digits, with a leading [-] below zero. *)
Definition str_int (n : Z) : string := NilZero.string_of_int (Z.to_int n).

(** The line feed ["\n"]. *)
Definition nl : string := String "010" EmptyString.

(** Exceptions. Both errors of the source are [ValueError]s, told apart by
    their message. *)
Inductive exn : Type :=
| ValueError (msg : string).

Inductive result (A : Type) : Type :=
| Ok (a : A)
| Raise (e : exn).
Arguments Ok {A} a.
Arguments Raise {A} e.

(** The error raised by [Mem.__str__]. *)
Definition AddressingError : exn :=
  ValueError "post-indexed addressing requires an offset".

(** The error raised by [Asm.label]. *)
Definition InvalidLabelError : exn :=
  ValueError "label must be a non-empty identifier without spaces".

(** ** Vocabulary: the fallback enums of the source *)

Inductive Reg : Type :=
| r0 | r1 | r2 | r3 | r4 | r5 | r6 | r7 | r8 | r9 | r10 | r11 | r12
| sp | lr | pc.

(** [Reg.__str__]: [self.name.upper()]. *)
Definition Reg_str (r : Reg) : string :=
  match r with
  | r0 => "R0" | r1 => "R1" | r2 => "R2" | r3 => "R3" | r4 => "R4"
  | r5 => "R5" | r6 => "R6" | r7 => "R7" | r8 => "R8" | r9 => "R9"
  | r10 => "R10" | r11 => "R11" | r12 => "R12"
  | sp => "SP" | lr => "LR" | pc => "PC"
  end.

Inductive Ops : Type :=
| MOV | MVN | ADD | ADC | SUB | SBC | RSB | RSC | MUL | MLA
| AND | ORR | EOR | BIC | LSL | LSR | ASR | ROR | RRX
| LDR | STR | LDRB | STRB | LDRH | LDRSH | LDM | STM
| SVC | NOP | SWP | B | BL | BX | PUSH | POP.

(** [Ops.__str__]: [self.name]. *)
Definition Ops_str (o : Ops) : string :=
  match o with
  | MOV => "MOV" | MVN => "MVN" | ADD => "ADD" | ADC => "ADC" | SUB => "SUB"
  | SBC => "SBC" | RSB => "RSB" | RSC => "RSC" | MUL => "MUL" | MLA => "MLA"
  | AND => "AND" | ORR => "ORR" | EOR => "EOR" | BIC => "BIC" | LSL => "LSL"
  | LSR => "LSR" | ASR => "ASR" | ROR => "ROR" | RRX => "RRX"
  | LDR => "LDR" | STR => "STR" | LDRB => "LDRB" | STRB => "STRB"
  | LDRH => "LDRH" | LDRSH => "LDRSH" | LDM => "LDM" | STM => "STM"
  | SVC => "SVC" | NOP => "NOP" | SWP => "SWP" | B => "B" | BL => "BL"
  | BX => "BX" | PUSH => "PUSH" | POP => "POP"
  end.

(** Condition codes; [AL] is the default. *)
Inductive Cond : Type :=
| AL | EQ | NE | CS | CC | MI | PL | VS | VC | HI | LS | GE | LT | GT | LE.

(** [Cond.__str__]: [self.value]. *)
Definition Cond_str (c : Cond) : string :=
  match c with
  | AL => ""
  | EQ => "EQ" | NE => "NE" | CS => "CS" | CC => "CC" | MI => "MI"
  | PL => "PL" | VS => "VS" | VC => "VC" | HI => "HI" | LS => "LS"
  | GE => "GE" | LT => "LT" | GT => "GT" | LE => "LE"
  end.

(** ** Operands *)

Record Imm : Type := mkImm { value : Z }.

(** [Imm.__str__]. *)
Definition Imm_str (i : Imm) : string := "#" ++ str_int (value i).

Record Shift : Type := mkShift { kind : string; amount : Z }.

(** [Shift.__str__]. *)
Definition Shift_str (sh : Shift) : string :=
  kind sh ++ " #" ++ str_int (amount sh).

(** The offset of a memory operand, [Union[Number, Reg]]. *)
Inductive Offset : Type :=
| OffInt (n : Z)
| OffReg (r : Reg).

Record Mem : Type := mkMem {
  base : Reg;
  offset : option Offset;
  shift : option Shift;
  pre_indexed : bool;
  write_back : bool
}.

(** [Mem.__str__]. *)
Definition Mem_str (self : Mem) : result string :=
  let parts := [Reg_str (base self)] in
  let parts :=
    match offset self with
    | Some off =>
        let parts :=
          match off with
          | OffInt n => List.app parts ["#" ++ str_int n]
          | OffReg r => List.app parts [Reg_str r]
          end in
        match shift self with
        | Some sh => List.app parts [Shift_str sh]
        | None => parts
        end
    | None => parts
    end in
  let inside := join ", " parts in
  if pre_indexed self then
    let wb := if write_back self then "!" else "" in
    Ok ("[" ++ inside ++ "]" ++ wb)
  else
    match offset self with
    | None => Raise AddressingError
    | Some o =>
        let off :=
          match o with
          | OffInt n => "#" ++ str_int n
          | OffReg r => Reg_str r
          end in
        let off :=
          match shift self with
          | Some sh => off ++ ", " ++ Shift_str sh
          | None => off
          end in
        Ok ("[" ++ Reg_str (base self) ++ "], " ++ off)
    end.

(** [Opnd = Union[Reg, Imm, Mem, str]]. *)
Inductive Opnd : Type :=
| OReg (r : Reg)
| OImm (i : Imm)
| OMem (m : Mem)
| OStr (s : string).

(** [str(o)] for an operand [o]. *)
Definition Opnd_str (o : Opnd) : result string :=
  match o with
  | OReg r => Ok (Reg_str r)
  | OImm i => Ok (Imm_str i)
  | OMem m => Mem_str m
  | OStr s => Ok s
  end.

(** [imm(x)], with [ImmLike = Union[int, Imm]]. *)
Inductive ImmLike : Type :=
| IInt (n : Z)
| IImm (i : Imm).

Definition imm (x : ImmLike) : Imm :=
  match x with
  | IImm i => i
  | IInt n => mkImm n
  end.

Definition lsl (amount : Z) : Shift := mkShift "LSL" amount.
Definition lsr (amount : Z) : Shift := mkShift "LSR" amount.
Definition asr (amount : Z) : Shift := mkShift "ASR" amount.
Definition ror (amount : Z) : Shift := mkShift "ROR" amount.

(** [mem(base, offset, shift_=, pre=, wb=)]. *)
Definition mem (base : Reg) (offset : option Offset) (shift_ : option Shift)
    (pre wb : bool) : Mem :=
  mkMem base offset shift_ pre wb.


(** ** Instruction record *)

Record Instr : Type := mkInstr {
  op : Ops;
  operands : list Opnd;
  cond : Cond;
  setflags : bool;
  comment : option string
}.

(** The operations whose mnemonic never takes the [S] suffix: the set
    literal of [Instr.__str__], a set of operation names. *)
Definition no_S : list string :=
  ["LDR"; "STR"; "LDRB"; "STRB"; "LDM"; "STM"; "B"; "BL"; "BX"].

(** [x in names] for a set of strings. *)
Definition str_in (x : string) (names : list string) : bool :=
  existsb (String.eqb x) names.

(** [str(o) for o in operands], left to right; the first operand whose
    rendering raises ends the iteration. *)
Fixpoint Opnds_str (os : list Opnd) : result (list string) :=
  match os with
  | [] => Ok []
  | o :: rest =>
      match Opnd_str o with
      | Raise e => Raise e
      | Ok s =>
          match Opnds_str rest with
          | Raise e => Raise e
          | Ok ss => Ok (s :: ss)
          end
      end
  end.

(** The local [mnem] of [Instr.__str__]: operation, condition, [S] suffix. *)
Definition Instr_mnem (self : Instr) : string :=
  let op := Ops_str (op self) in
  let cond := Cond_str (cond self) in
  let sfx := if setflags self && negb (str_in op no_S) then "S" else "" in
  op ++ cond ++ sfx.

(** [Instr.__str__]. A comment that is [None] or empty is not rendered. *)
Definition Instr_str (self : Instr) : result string :=
  let mnem := Instr_mnem self in
  match Opnds_str (operands self) with
  | Raise e => Raise e
  | Ok rendered =>
      let ops := join ", " rendered in
      let line := rstrip (mnem ++ " " ++ ops) in
      match comment self with
      | None | Some EmptyString => Ok line
      | Some text =>
          let pad := if ops =? "" then "" else " " in
          Ok (line ++ pad ++ "; " ++ text)
      end
  end.

(** ** Instruction-stream builder *)

(** The state of an [Asm] object: its attribute [lines]. *)
Definition Lines : Type := list string.

(** A method call: from the lines before the call to its outcome (a value
    or a raised exception) and the lines after it. *)
Definition Method (A : Type) : Type := Lines -> result A * Lines.

Definition ret {A : Type} (a : A) : Method A :=
  fun lines => (Ok a, lines).

Definition bind {A B : Type} (m : Method A) (k : A -> Method B) : Method B :=
  fun lines =>
    match m lines with
    | (Ok a, lines') => k a lines'
    | (Raise e, lines') => (Raise e, lines')
    end.

(** [raise e]. *)
Definition raise {A : Type} (e : exn) : Method A :=
  fun lines => (Raise e, lines).

(** Evaluation of an expression that reads no attribute of the object. *)
Definition eval {A : Type} (r : result A) : Method A :=
  fun lines => (r, lines).

(** [self.lines.append(line)]. *)
Definition append (line : string) : Method unit :=
  fun lines => (Ok tt, List.app lines [line]).

Declare Scope method_scope.
Delimit Scope method_scope with method.
Notation "x <- m ;; k" := (bind m (fun x => k))
  (at level 61, m at next level, right associativity) : method_scope.
Notation "m ;; k" := (bind m (fun _ => k))
  (at level 61, right associativity) : method_scope.

(** The names of the operation vocabulary, for [hasattr(Ops, name)]. *)
Definition Ops_names : list string :=
  map Ops_str
    [MOV; MVN; ADD; ADC; SUB; SBC; RSB; RSC; MUL; MLA; AND; ORR; EOR; BIC;
     LSL; LSR; ASR; ROR; RRX; LDR; STR; LDRB; STRB; LDRH; LDRSH; LDM; STM;
     SVC; NOP; SWP; B; BL; BX; PUSH; POP].

(** The source of [mov]: [Union[Reg, ImmLike]]. *)
Inductive Src : Type :=
| SrcReg (r : Reg)
| SrcImm (x : ImmLike).

(** The third operand of the arithmetic and logical helpers:
    [Union[Reg, ImmLike, Tuple[Reg, Shift]]]. *)
Inductive Op2 : Type :=
| Op2Reg (r : Reg)
| Op2Imm (x : ImmLike)
| Op2Shifted (rm : Reg) (sh : Shift).

Module Asm.
Local Open Scope method_scope.

(** [Asm()]. *)
Definition new : Lines := [].

Definition emit (op : Ops) (operands : list Opnd) (cond : Cond) (s : bool)
    (cmt : option string) : Method unit :=
  line <- eval (Instr_str (mkInstr op operands cond s cmt)) ;;
  append line.

Definition label (name : string) : Method unit :=
  if (name =? "") || existsb isspace (list_ascii_of_string name)
  then raise InvalidLabelError
  else append (name ++ ":").

Definition directive (text : string) : Method unit := append text.

Definition comment (text : string) : Method unit := append ("# " ++ text).

Definition global_ (name : string) : Method unit :=
  append (".global " ++ name).

(** The static method [initial]: a new object with the standard prologue. *)
Definition initial : result Lines :=
  match (directive ".section .text" ;;
         global_ "_start" ;;
         label "_start") new with
  | (Ok _, asm) => Ok asm
  | (Raise e, _) => Raise e
  end.

Definition mov (rd : Reg) (src : Src) (cond : Cond) (s : bool)
    (cmt : option string) : Method unit :=
  emit MOV
    [OReg rd;
     match src with
     | SrcImm (IInt n) => OImm (imm (IInt n))
     | SrcImm (IImm i) => OImm i
     | SrcReg r => OReg r
     end]
    cond s cmt.

Definition _dataproc (op : Ops) (rd rn : Reg) (op2 : Op2) (cond : Cond)
    (s : bool) : Method unit :=
  match op2 with
  | Op2Imm (IInt n) => emit op [OReg rd; OReg rn; OImm (imm (IInt n))] cond s None
  | Op2Shifted rm sh =>
      emit op [OReg rd; OReg rn; OStr (Reg_str rm ++ ", " ++ Shift_str sh)]
        AL false None
  | Op2Imm (IImm i) => emit op [OReg rd; OReg rn; OImm i] cond s None
  | Op2Reg r => emit op [OReg rd; OReg rn; OReg r] cond s None
  end.

Definition add (rd rn : Reg) (op2 : Op2) (cond : Cond) (s : bool) :=
  _dataproc ADD rd rn op2 cond s.

Definition sub (rd rn : Reg) (op2 : Op2) (cond : Cond) (s : bool) :=
  _dataproc SUB rd rn op2 cond s.

Definition and_ (rd rn : Reg) (op2 : Op2) (cond : Cond) (s : bool) :=
  _dataproc AND rd rn op2 cond s.

Definition orr (rd rn : Reg) (op2 : Op2) (cond : Cond) (s : bool) :=
  _dataproc ORR rd rn op2 cond s.

Definition eor (rd rn : Reg) (op2 : Op2) (cond : Cond) (s : bool) :=
  _dataproc EOR rd rn op2 cond s.

Definition ldr (rd : Reg) (address : Mem) (cond : Cond) : Method unit :=
  emit LDR [OReg rd; OMem address] cond false None.

Definition str (rd : Reg) (address : Mem) (cond : Cond) : Method unit :=
  emit STR [OReg rd; OMem address] cond false None.

Definition strb (rd : Reg) (address : Mem) (cond : Cond) : Method unit :=
  emit STRB [OReg rd; OMem address] cond false None.

Definition b (target : string) (cond : Cond) : Method unit :=
  emit B [OStr target] cond false None.

Definition bl (target : string) (cond : Cond) : Method unit :=
  let op := if str_in "BL" Ops_names then BL else B in
  emit op [OStr target] cond false None.

Definition bx (rm : Reg) (cond : Cond) : Method unit :=
  let op := if str_in "BX" Ops_names then BX else B in
  emit op [OReg rm] cond false None.

Definition push (regs : list Reg) (cond : Cond) : Method unit :=
  let reglist := "{" ++ join ", " (map Reg_str regs) ++ "}" in
  emit PUSH [OStr reglist] cond false None.

Definition pop (regs : list Reg) (cond : Cond) : Method unit :=
  let reglist := "{" ++ join ", " (map Reg_str regs) ++ "}" in
  emit PUSH [OStr reglist] cond false None.

Definition svc : Method unit := emit SVC [OStr "#0"] AL false None.

(** [text]: reads the lines and leaves them as they are. *)
Definition text (lines : Lines) : string :=
  join nl lines
  ++ (if negb (Nat.eqb (List.length lines) 0)
         && negb (endswith (last lines "") nl)
      then nl else "").

Definition clear : Method unit := fun _ => (Ok tt, []).

(** One call of a builder method, with its arguments. *)
Inductive call : Type :=
| Emit (op : Ops) (operands : list Opnd) (cond : Cond) (s : bool)
    (cmt : option string)
| Label (name : string)
| Directive (text : string)
| Comment (text : string)
| Global (name : string)
| Mov (rd : Reg) (src : Src) (cond : Cond) (s : bool) (cmt : option string)
| Add (rd rn : Reg) (op2 : Op2) (cond : Cond) (s : bool)
| Sub (rd rn : Reg) (op2 : Op2) (cond : Cond) (s : bool)
| And_ (rd rn : Reg) (op2 : Op2) (cond : Cond) (s : bool)
| Orr (rd rn : Reg) (op2 : Op2) (cond : Cond) (s : bool)
| Eor (rd rn : Reg) (op2 : Op2) (cond : Cond) (s : bool)
| Ldr (rd : Reg) (address : Mem) (cond : Cond)
| Str (rd : Reg) (address : Mem) (cond : Cond)
| Strb (rd : Reg) (address : Mem) (cond : Cond)
| Br (target : string) (cond : Cond)
| Bl (target : string) (cond : Cond)
| Bx (rm : Reg) (cond : Cond)
| Push (regs : list Reg) (cond : Cond)
| Pop (regs : list Reg) (cond : Cond)
| Svc
| Clear.

(** The method a call invokes. *)
Definition run (c : call) : Method unit :=
  match c with
  | Emit op operands cond s cmt => emit op operands cond s cmt
  | Label name => label name
  | Directive text => directive text
  | Comment text => comment text
  | Global name => global_ name
  | Mov rd src cond s cmt => mov rd src cond s cmt
  | Add rd rn op2 cond s => add rd rn op2 cond s
  | Sub rd rn op2 cond s => sub rd rn op2 cond s
  | And_ rd rn op2 cond s => and_ rd rn op2 cond s
  | Orr rd rn op2 cond s => orr rd rn op2 cond s
  | Eor rd rn op2 cond s => eor rd rn op2 cond s
  | Ldr rd address cond => ldr rd address cond
  | Str rd address cond => str rd address cond
  | Strb rd address cond => strb rd address cond
  | Br target cond => b target cond
  | Bl target cond => bl target cond
  | Bx rm cond => bx rm cond
  | Push regs cond => push regs cond
  | Pop regs cond => pop regs cond
  | Svc => svc
  | Clear => clear
  end.

End Asm.

(** ** The system-call helper *)

Module Syscall.
Local Open Scope method_scope.

(** [Syscall.write(asm, size)]. *)
Definition write (size : Z) : Method unit :=
  Asm.mov r7 (SrcImm (IInt 4)) AL false None ;;
  Asm.mov r0 (SrcImm (IInt 1)) AL false None ;;
  Asm.mov r1 (SrcReg sp) AL false None ;;
  Asm.mov r2 (SrcImm (IInt size)) AL false None ;;
  Asm.svc.

(** [Syscall.exit(asm)]. *)
Definition exit : Method unit :=
  Asm.mov r7 (SrcImm (IInt 1)) AL false None ;;
  Asm.mov r0 (SrcImm (IInt 1)) AL false None ;;
  Asm.svc.

End Syscall.

(** ** The program generators *)

(** [len(s)] and [ord(ch)]. *)
Definition len (s : string) : Z := Z.of_nat (String.length s).

Definition ord (ch : ascii) : Z := Z.of_N (N_of_ascii ch).

(** The argument of [print_asm]: a [str], or an [int] as in the call of the
    main block. Values of other types are not modelled. *)
Inductive Printable : Type :=
| PStr (s : string)
| PInt (n : Z).

(** [str(text) if not isinstance(text, str) else text]. *)
Definition Printable_str (text : Printable) : string :=
  match text with
  | PStr s => s
  | PInt n => str_int n
  end.

(** [int(x)] for a float [x] given by its value: truncation toward zero. *)
Definition int_of_float (x : QArith_base.Q) : Z :=
  Z.quot (QArith_base.Qnum x) (Zpos (QArith_base.Qden x)).

(** The local [n_size] of [print_asm]: [int(((len(text) + 15) / 16) * 16)],
    where [/] is the true division of Python, whose result is a float. As
    long as [len(text) + 15] is below [2^53], the quotient by 16 and its
    product with 16 are computed without rounding, both being a change of
    the exponent only, so that the floats are the rationals used here. *)
Definition n_size (text : string) : Z :=
  int_of_float
    (QArith_base.Qmult
       (QArith_base.Qdiv (QArith_base.inject_Z (len text + 15))
          (QArith_base.inject_Z 16))
       (QArith_base.inject_Z 16)).

(** What ends a generator: the builder's [ValueError], or the read of a
    local variable that was never assigned. *)
Inductive failure : Type :=
| BuilderError (e : exn)
| UnboundLocalError (name : string).

Inductive outcome (A : Type) : Type :=
| Return (a : A)
| Fail (f : failure).
Arguments Return {A} a.
Arguments Fail {A} f.

Section Generators.
Local Open Scope method_scope.

(** The loop [for idx, t in enumerate(text)] of [print_asm], from the index
    [idx] on. *)
Fixpoint store_chars (idx : Z) (text : string) : Method unit :=
  match text with
  | EmptyString => ret tt
  | String t rest =>
      Asm.mov r1 (SrcImm (IInt (ord t))) AL false None ;;
      Asm.strb r1 (mkMem sp (Some (OffInt idx)) None true false) AL ;;
      store_chars (idx + 1) rest
  end.

(** [print_asm(text)]. After the loop [idx] is the index of the last
    character; over an empty text it was never assigned, and reading it
    raises. The builder of the call is local: when the call raises, it is
    lost. *)
Definition print_asm (text : Printable) : outcome Lines :=
  let text := Printable_str text in
  let n_size := n_size text in
  match Asm.initial with
  | Raise e => Fail (BuilderError e)
  | Ok asm =>
      match (Asm.mov r3 (SrcReg sp) AL false None ;;
             Asm.sub sp sp (Op2Imm (IInt n_size)) AL false ;;
             Asm.comment ("Allocated Stack : " ++ str_int n_size) ;;
             store_chars 0 text ;;
             Asm.mov r1 (SrcImm (IInt (ord "010"))) AL false None) asm with
      | (Raise e, _) => Fail (BuilderError e)
      | (Ok _, asm) =>
          match text with
          | EmptyString => Fail (UnboundLocalError "idx")
          | String _ _ =>
              let idx := (len text - 1)%Z in
              match (Asm.strb r1
                       (mkMem sp (Some (OffInt (idx + 1))) None true false)
                       AL ;;
                     Syscall.write (len text + 1) ;;
                     Asm.comment "Deallocated stack" ;;
                     Asm.add sp sp (Op2Imm (IInt n_size)) AL false ;;
                     Syscall.exit) asm with
              | (Raise e, _) => Fail (BuilderError e)
              | (Ok _, asm) => Return asm
              end
          end
      end
  end.

(** [int_to_asciz(value)]. *)
Definition int_to_asciz (value : Z) : result Lines :=
  match Asm.initial with
  | Raise e => Raise e
  | Ok asm =>
      match (Asm.mov r1 (SrcImm (IInt value)) AL false None ;;
             Asm.add r1 r1 (Op2Imm (IInt 48)) AL false ;;
             Asm.sub sp sp (Op2Imm (IInt 2)) AL false ;;
             Asm.strb r1 (mkMem sp (Some (OffInt 0)) None true false) AL ;;
             Asm.mov r1 (SrcImm (IInt (ord "010"))) AL false None ;;
             Asm.strb r1 (mkMem sp (Some (OffInt 1)) None true false) AL ;;
             Syscall.write 2 ;;
             Asm.add sp sp (Op2Imm (IInt 2)) AL false ;;
             Syscall.exit) asm with
      | (Raise e, _) => Raise e
      | (Ok _, asm) => Ok asm
      end
  end.

End Generators.

(** ** Vocabulary of the statements *)

(** The characters of a string. *)
Abbreviation chars := list_ascii_of_string.

(** No character of [s] is whitespace. *)
Definition no_space (s : string) : bool :=
  forallb (fun ch => negb (isspace ch)) (chars s).

(** [s] is not empty and [rstrip] keeps all of it. *)
Definition solid_end (s : string) : Prop :=
  rstrip s = s /\ s <> "".

(** [sub] occurs in [s]. *)
Definition Contains (sub s : string) : Prop :=
  exists before after, s = before ++ sub ++ after.

(** [ch] occurs in [s], as a test. *)
Definition has_char (ch : ascii) (s : string) : bool :=
  existsb (Ascii.eqb ch) (chars s).

(** [name] contains a whitespace character. *)
Definition has_space (name : string) : Prop :=
  exists ch, In ch (chars name) /\ isspace ch = true.

(** The text of an offset: [#] and the decimal for an integer constant, the
    register's name for a register. *)
Definition offset_text (o : Offset) : string :=
  match o with
  | OffInt n => "#" ++ str_int n
  | OffReg r => Reg_str r
  end.

(** The text that follows the offset: the shift, when there is one. *)
Definition shift_text (sh : option Shift) : string :=
  match sh with
  | Some s => ", " ++ Shift_str s
  | None => ""
  end.

(** The operations named by [no_S]: load and store of a word or a byte,
    load and store multiple, and the three branches. *)
Definition no_S_ops : list Ops := [LDR; STR; LDRB; STRB; LDM; STM; B; BL; BX].

(** The register list of [push] and [pop], in braces. *)
Definition reglist_text (regs : list Reg) : string :=
  "{" ++ join ", " (map Reg_str regs) ++ "}".


(** The [S] of a mnemonic. *)
Definition flag_text (s : bool) : string := if s then "S" else "".

(** The text of the source of [mov]. *)
Definition src_text (src : Src) : string :=
  match src with
  | SrcReg r => Reg_str r
  | SrcImm x => Imm_str (imm x)
  end.

(** The text of a third operand. *)
Definition op2_text (op2 : Op2) : string :=
  match op2 with
  | Op2Reg r => Reg_str r
  | Op2Imm x => Imm_str (imm x)
  | Op2Shifted rm sh => Reg_str rm ++ ", " ++ Shift_str sh
  end.

(** The text a comment adds to a line with operands. *)
Definition comment_text (cmt : option string) : string :=
  match cmt with
  | None | Some EmptyString => ""
  | Some text => " ; " ++ text
  end.

(** The lines of [Syscall.write] and of [Syscall.exit]. *)
Definition write_lines (size : Z) : list string :=
  ["MOV R7, #4"; "MOV R0, #1"; "MOV R1, SP"; "MOV R2, #" ++ str_int size;
   "SVC #0"].

Definition exit_lines : list string := ["MOV R7, #1"; "MOV R0, #1"; "SVC #0"].

(** The lines that store the characters of [text] from the index [idx] on:
    for each character, its code into [R1], then the byte to the stack. *)
Fixpoint store_lines (idx : Z) (text : string) : list string :=
  match text with
  | EmptyString => []
  | String t rest =>
      ("MOV R1, #" ++ str_int (ord t))
      :: ("STRB R1, [SP, #" ++ str_int idx ++ "]")
      :: store_lines (idx + 1) rest
  end.

(** The standard prologue. *)
Definition prologue : list string :=
  [".section .text"; ".global _start"; "_start:"].

(** A line with its line feed, and the lines of a stream so ended, one
    after the other. *)
Definition ended (lines : list string) : string :=
  String.concat "" (map (fun line => line ++ nl) lines).

(** The last line of a stream does not end in a line feed (an empty stream
    has no such line). *)
Definition open_end (lines : list string) : Prop :=
  lines = [] \/ endswith (last lines "") nl = false.

(** The operation, the condition and the appended [S] a mnemonic is made
    of. *)
Definition mnem_parts (i : Instr) : Ops * Cond * bool :=
  (op i, cond i, setflags i && negb (str_in (Ops_str (op i)) no_S)).

(** The mnemonic made of an operation, a condition and an [S] or none. *)
Definition mnem_of (parts : Ops * Cond * bool) : string :=
  let '(o, c, s) := parts in Ops_str o ++ Cond_str c ++ flag_text s.

(** The operations and the conditions, and the parts a mnemonic can be made
    of: no [S] on an operation of the exclusion set. *)
Definition all_Ops : list Ops :=
  [MOV; MVN; ADD; ADC; SUB; SBC; RSB; RSC; MUL; MLA; AND; ORR; EOR; BIC;
   LSL; LSR; ASR; ROR; RRX; LDR; STR; LDRB; STRB; LDRH; LDRSH; LDM; STM;
   SVC; NOP; SWP; B; BL; BX; PUSH; POP].

Definition all_Cond : list Cond :=
  [AL; EQ; NE; CS; CC; MI; PL; VS; VC; HI; LS; GE; LT; GT; LE].

Definition all_parts : list (Ops * Cond * bool) :=
  flat_map
    (fun o =>
       flat_map
         (fun c =>
            (o, c, false)
            :: (if str_in (Ops_str o) no_S then [] else [(o, c, true)]))
         all_Cond)
    all_Ops.

(** Two mnemonics of [all_parts] that are equal are made of parts with the
    same names, as a test over all pairs. *)
Definition mnem_clash_free : bool :=
  forallb
    (fun p =>
       forallb
         (fun q =>
            implb (mnem_of p =? mnem_of q)
              (let '(o, c, s) := p in
               let '(o', c', s') := q in
               (Ops_str o =? Ops_str o') && (Cond_str c =? Cond_str c')
               && Bool.eqb s s'))
         all_parts)
    all_parts.

(** The integers CPython prints whatever its settings: since version 3.11
    [str] of an [int] of more than [max_str_digits] digits raises by
    default, which [str_int], a total function, does not show. A statement
    that a call returns is made of the integers within this bound. *)
Definition max_str_digits : nat := 4300.

Definition str_allowed (n : Z) : Prop :=
  (String.length (str_int (Z.abs n)) <= max_str_digits)%nat.



Definition Op2_allowed (op2 : Op2) : Prop :=
  match op2 with
  | Op2Imm x => str_allowed (value (imm x))
  | Op2Shifted _ sh => str_allowed (amount sh)
  | Op2Reg _ => True
  end.

Definition Printable_allowed (text : Printable) : Prop :=
  match text with
  | PInt n => str_allowed n
  | PStr _ => True
  end.

(** ** Facts about strings *)

Section StringFacts.

Lemma str_app_assoc (a b c : string) : (a ++ b) ++ c = a ++ b ++ c.
Proof. induction a as [|ch a IH]; simpl; [reflexivity | now rewrite IH]. Qed.

Lemma str_app_nil_r (a : string) : a ++ "" = a.
Proof. induction a as [|ch a IH]; simpl; [reflexivity | now rewrite IH]. Qed.

Lemma chars_app (a b : string) : chars (a ++ b) = (chars a ++ chars b)%list.
Proof. induction a as [|ch a IH]; simpl; [reflexivity | now rewrite IH]. Qed.

Lemma str_app_nonempty (a b : string) : b <> "" -> a ++ b <> "".
Proof. destruct a; simpl; [trivial | discriminate]. Qed.

Lemma no_space_app (a b : string) :
  no_space (a ++ b) = no_space a && no_space b.
Proof. unfold no_space. now rewrite chars_app, forallb_app. Qed.

Lemma has_char_spec (ch : ascii) (s : string) :
  has_char ch s = true <-> In ch (chars s).
Proof.
  unfold has_char. rewrite existsb_exists. split.
  - intros (x & Hin & Heq). apply Ascii.eqb_eq in Heq. now subst.
  - intros Hin. exists ch. split; [assumption | apply Ascii.eqb_refl].
Qed.

Lemma Contains_char (ch : ascii) (sub s : string) :
  Contains sub s -> In ch (chars sub) -> In ch (chars s).
Proof.
  intros (before & after & ->) Hin.
  rewrite !chars_app. apply in_or_app. right. apply in_or_app. now left.
Qed.

Lemma str_in_spec (x : string) (names : list string) :
  str_in x names = true <-> In x names.
Proof.
  unfold str_in. rewrite existsb_exists. split.
  - intros (y & Hin & Heq). apply String.eqb_eq in Heq. now subst.
  - intros Hin. exists x. split; [assumption | apply String.eqb_refl].
Qed.

End StringFacts.

(** Concatenations brought to the same shape on both sides of an equation. *)
Ltac str_norm :=
  repeat (progress (cbn [String.append];
                    rewrite ?str_app_assoc, ?str_app_nil_r)).

(** ** Facts about [rstrip] *)

Section Rstrip.

(** [rstrip] of a concatenation: when the right part is all whitespace the
    left part is stripped, otherwise the left part is kept whole. *)
Lemma rstrip_app (a b : string) :
  rstrip (a ++ b) =
  match rstrip b with
  | EmptyString => rstrip a
  | kept => a ++ kept
  end.
Proof.
  induction a as [|ch a IH]; simpl.
  - now destruct (rstrip b).
  - rewrite IH. destruct (rstrip b) as [|x y]; [reflexivity|].
    destruct a; reflexivity.
Qed.

Lemma rstrip_no_space (s : string) : no_space s = true -> rstrip s = s.
Proof.
  unfold no_space. induction s as [|ch s IH]; simpl; [reflexivity|].
  intros H. apply andb_true_iff in H as [Hch Hs].
  rewrite (IH Hs). destruct s; [|reflexivity].
  apply negb_true_iff in Hch. now rewrite Hch.
Qed.

Lemma solid_end_no_space (s : string) :
  no_space s = true -> s <> "" -> solid_end s.
Proof. intros H Hne. split; [now apply rstrip_no_space | assumption]. Qed.

Lemma solid_end_app (a b : string) : solid_end b -> solid_end (a ++ b).
Proof.
  intros [Hb Hne]. split; [|now apply str_app_nonempty].
  rewrite rstrip_app, Hb. destruct b; [contradiction | reflexivity].
Qed.

Lemma solid_end_rstrip (s : string) : solid_end s -> rstrip s = s.
Proof. now intros [H _]. Qed.

(** After a prefix without whitespace, [rstrip] keeps the prefix. *)
Lemma rstrip_prefix (a b : string) :
  no_space a = true -> exists rest, rstrip (a ++ b) = a ++ rest.
Proof.
  intros Ha. rewrite rstrip_app. destruct (rstrip b) as [|x y].
  - exists "". now rewrite (rstrip_no_space a Ha), str_app_nil_r.
  - now exists (String x y).
Qed.

End Rstrip.

(** ** Facts about the decimal text of an integer *)

Section Decimal.

Lemma uint_no_space (d : Decimal.uint) :
  no_space (NilEmpty.string_of_uint d) = true.
Proof. induction d; simpl; trivial. Qed.

Lemma pos_no_space (p : positive) :
  no_space (NilZero.string_of_uint (Pos.to_uint p)) = true.
Proof.
  unfold NilZero.string_of_uint.
  destruct (Pos.to_uint p) eqn:E; try apply uint_no_space. reflexivity.
Qed.

Lemma str_int_no_space (n : Z) : no_space (str_int n) = true.
Proof.
  unfold str_int. destruct n as [|p|p]; simpl; try reflexivity;
    apply pos_no_space.
Qed.

Lemma str_int_nonempty (n : Z) : str_int n <> "".
Proof.
  unfold str_int. destruct n as [|p|p]; simpl; try discriminate.
  unfold NilZero.string_of_uint. destruct (Pos.to_uint p); discriminate.
Qed.

Lemma solid_end_str_int (n : Z) : solid_end (str_int n).
Proof.
  apply solid_end_no_space; [apply str_int_no_space | apply str_int_nonempty].
Qed.

End Decimal.

(** ** Facts about rendering and emission *)

Section Emission.

Lemma emit_Ok op os c s cmt line (lines : Lines) :
  Instr_str (mkInstr op os c s cmt) = Ok line ->
  Asm.emit op os c s cmt lines = (Ok tt, List.app lines [line]).
Proof. intros H. unfold Asm.emit, bind, eval, append. now rewrite H. Qed.

Lemma emit_Raise op os c s cmt e (lines : Lines) :
  Instr_str (mkInstr op os c s cmt) = Raise e ->
  Asm.emit op os c s cmt lines = (Raise e, lines).
Proof. intros H. unfold Asm.emit, bind, eval. now rewrite H. Qed.

(** Without the flag-set request the mnemonic is operation and condition. *)
Lemma mnem_plain op os c cmt :
  Instr_mnem (mkInstr op os c false cmt) = Ops_str op ++ Cond_str c.
Proof. unfold Instr_mnem. simpl. now rewrite str_app_nil_r. Qed.

(** An instruction without flag-set request and comment whose operand list
    ends in a character that is not whitespace. *)
Lemma Instr_str_plain op os c rendered :
  Opnds_str os = Ok rendered ->
  solid_end (join ", " rendered) ->
  Instr_str (mkInstr op os c false None)
  = Ok (Ops_str op ++ Cond_str c ++ " " ++ join ", " rendered).
Proof.
  intros Hos Hend. unfold Instr_str. cbn [operands comment]. rewrite Hos.
  rewrite solid_end_rstrip by (do 2 apply solid_end_app; exact Hend).
  now rewrite mnem_plain, str_app_assoc.
Qed.

Lemma solid_end_reglist regs : solid_end (reglist_text regs).
Proof.
  unfold reglist_text. do 2 apply solid_end_app.
  apply solid_end_no_space; [reflexivity | discriminate].
Qed.

(** The line of [push]. *)
Lemma push_line regs c (lines : Lines) :
  Asm.push regs c lines
  = (Ok tt, List.app lines ["PUSH" ++ Cond_str c ++ " " ++ reglist_text regs]).
Proof.
  unfold Asm.push. apply emit_Ok.
  apply (Instr_str_plain PUSH [OStr (reglist_text regs)] c
           [reglist_text regs]); [reflexivity | apply solid_end_reglist].
Qed.

(** [pop] runs the code of [push]. *)
Lemma pop_is_push regs c : Asm.pop regs c = Asm.push regs c.
Proof. reflexivity. Qed.

Lemma solid_end_Shift_str sh : solid_end (Shift_str sh).
Proof. unfold Shift_str. do 2 apply solid_end_app. apply solid_end_str_int. Qed.

(** The names in [no_S] are the names of [no_S_ops]. *)
Lemma no_S_names (o : Ops) : str_in (Ops_str o) no_S = true <-> In o no_S_ops.
Proof.
  unfold no_S_ops. destruct o; cbn; split; intros H;
    solve [reflexivity | discriminate | tauto
          | repeat (destruct H as [H|H]; try discriminate H); contradiction].
Qed.

Lemma no_space_mnem (i : Instr) : no_space (Instr_mnem i) = true.
Proof.
  unfold Instr_mnem. rewrite !no_space_app.
  destruct (setflags i && negb (str_in (Ops_str (op i)) no_S));
    destruct (cond i); destruct (op i); reflexivity.
Qed.

(** A rendered instruction starts with its mnemonic. *)
Lemma Instr_str_starts_with_mnem (i : Instr) (line : string) :
  Instr_str i = Ok line -> exists rest, line = Instr_mnem i ++ rest.
Proof.
  unfold Instr_str. destruct (Opnds_str (operands i)) as [rendered|e];
    [|discriminate].
  destruct (rstrip_prefix (Instr_mnem i) (" " ++ join ", " rendered)
              (no_space_mnem i)) as [rest Hrest].
  rewrite Hrest.
  destruct (comment i) as [[|ch text]|]; intros H; inversion H; subst.
  - now exists rest.
  - eexists. now rewrite str_app_assoc.
  - now exists rest.
Qed.

Lemma emit_atomic op os c s cmt e (lines lines' : Lines) :
  Asm.emit op os c s cmt lines = (Raise e, lines') -> lines' = lines.
Proof.
  unfold Asm.emit, bind, eval, append.
  destruct (Instr_str _); intros H; inversion H; reflexivity.
Qed.

Lemma label_atomic name e (lines lines' : Lines) :
  Asm.label name lines = (Raise e, lines') -> lines' = lines.
Proof.
  unfold Asm.label, raise, append.
  destruct (_ || _); intros H; inversion H; reflexivity.
Qed.

End Emission.

(** ** Properties of the specification *)

(** C1 (as amended). A pre-indexed memory operand without offset renders as
    [[] + the base register's name + []], followed by [!] exactly when the
    write-back flag is set; a shift, if supplied, is not rendered. *)
Theorem C1_pre_indexed_no_offset :
  forall (b : Reg) (sh : option Shift) (wb : bool),
    Mem_str (mkMem b None sh true wb)
    = Ok ("[" ++ Reg_str b ++ "]" ++ (if wb then "!" else "")).
Proof. intros b sh wb. reflexivity. Qed.

(** C1, the claim as stated fails: with the write-back flag set, the
    pre-indexed operand [base=R0] without offset renders as [[R0]!], not as
    [[R0]]. *)
Lemma C1_counterexample :
  Mem_str (mkMem r0 None None true true) = Ok "[R0]!"
  /\ Mem_str (mkMem r0 None None true true) <> Ok ("[" ++ Reg_str r0 ++ "]").
Proof. split; [reflexivity | discriminate]. Qed.

(** C2. For every register list and condition code, [pop] appends the very
    line [push] appends: the [PUSH] mnemonic with the condition suffix, a
    space, and the register names joined by [, ] in braces. *)
Theorem C2_pop_emits_push_line :
  forall (regs : list Reg) (c : Cond) (lines : Lines),
    Asm.pop regs c lines = Asm.push regs c lines
    /\ Asm.push regs c lines
       = (Ok tt,
          List.app lines
            [Ops_str PUSH ++ Cond_str c ++ " "
             ++ "{" ++ join ", " (map Reg_str regs) ++ "}"]).
Proof.
  intros regs c lines. split.
  - now rewrite pop_is_push.
  - apply push_line.
Qed.

(** C4. For [add], [sub], [and_], [orr] and [eor] with a register-plus-shift
    third operand, whatever condition and flag-set request are passed, the
    call is the emission of the operation with the three operands [rd],
    [rn] and the text [rm + ", " + shift], unconditional and without flag
    setting, and the appended line is the bare operation name followed by
    the three operand texts. *)
Theorem C4_shifted_operand_drops_cond_and_flags :
  forall (rd rn rm : Reg) (sh : Shift) (c : Cond) (s : bool) (lines : Lines),
    let synthetic := Reg_str rm ++ ", " ++ Shift_str sh in
    let line_of (o : Ops) :=
      Ops_str o ++ " " ++ Reg_str rd ++ ", " ++ Reg_str rn ++ ", " ++ synthetic in
    let emitted (o : Ops) (m : Method unit) :=
      m = Asm.emit o [OReg rd; OReg rn; OStr synthetic] AL false None
      /\ m lines = (Ok tt, List.app lines [line_of o]) in
    emitted ADD (Asm.add rd rn (Op2Shifted rm sh) c s)
    /\ emitted SUB (Asm.sub rd rn (Op2Shifted rm sh) c s)
    /\ emitted AND (Asm.and_ rd rn (Op2Shifted rm sh) c s)
    /\ emitted ORR (Asm.orr rd rn (Op2Shifted rm sh) c s)
    /\ emitted EOR (Asm.eor rd rn (Op2Shifted rm sh) c s).
Proof.
  intros rd rn rm sh c s lines synthetic line_of emitted.
  assert (Hemit : forall o,
    Asm.emit o [OReg rd; OReg rn; OStr synthetic] AL false None lines
    = (Ok tt, List.app lines [line_of o])).
  { intros o. apply emit_Ok.
    rewrite (Instr_str_plain o _ AL [Reg_str rd; Reg_str rn; synthetic]).
    - reflexivity.
    - reflexivity.
    - unfold join, synthetic. cbn [concat].
      do 6 apply solid_end_app. apply solid_end_Shift_str. }
  unfold emitted; repeat split; try reflexivity; apply Hemit.
Qed.

(** C10. [push] and [pop] with an empty register list raise nothing and
    append the mnemonic, one space and the empty brace pair. *)
Theorem C10_push_pop_empty_list :
  forall (c : Cond) (lines : Lines),
    Asm.push [] c lines = (Ok tt, List.app lines ["PUSH" ++ Cond_str c ++ " {}"])
    /\ Asm.pop [] c lines = (Ok tt, List.app lines ["PUSH" ++ Cond_str c ++ " {}"])
    /\ Asm.push [] AL Asm.new = (Ok tt, ["PUSH {}"]).
Proof.
  intros c lines. split; [|split].
  - apply push_line.
  - apply (push_line [] c lines).
  - reflexivity.
Qed.

(** C3 (as amended). The shift of a memory operand is rendered whenever an
    offset is present, be it an integer constant or a register: in both
    modes the text of the shift follows the text of the offset. Only when
    the offset is absent does a rendered operand not contain the text of
    the shift. *)
Theorem C3_shift_rendered_with_any_offset :
  forall (m : Mem) (sh : Shift),
    shift m = Some sh ->
    (forall o, offset m = Some o ->
       Mem_str m
       = Ok (if pre_indexed m
             then "[" ++ Reg_str (base m) ++ ", " ++ offset_text o ++ ", "
                  ++ Shift_str sh ++ "]" ++ (if write_back m then "!" else "")
             else "[" ++ Reg_str (base m) ++ "], " ++ offset_text o ++ ", "
                  ++ Shift_str sh)
       /\ forall text, Mem_str m = Ok text -> Contains (Shift_str sh) text)
    /\ (offset m = None ->
        forall text, Mem_str m = Ok text -> ~ Contains (Shift_str sh) text).
Proof.
  intros [b off s pre wb] sh Hs. simpl in Hs. subst s. split.
  - intros o Ho. simpl in Ho. subst off.
    assert (Hrender :
      Mem_str (mkMem b (Some o) (Some sh) pre wb)
      = Ok (if pre
            then "[" ++ Reg_str b ++ ", " ++ offset_text o ++ ", "
                 ++ Shift_str sh ++ "]" ++ (if wb then "!" else "")
            else "[" ++ Reg_str b ++ "], " ++ offset_text o ++ ", "
                 ++ Shift_str sh)).
    { unfold Mem_str. cbn [offset shift pre_indexed write_back base].
      destruct pre, o; cbn [List.app join concat offset_text];
        rewrite ?str_app_assoc; reflexivity. }
    cbn [pre_indexed base write_back]. split; [exact Hrender|].
    intros text Ht. rewrite Hrender in Ht. injection Ht as <-.
    destruct pre.
    + exists ("[" ++ Reg_str b ++ ", " ++ offset_text o ++ ", "),
             ("]" ++ (if wb then "!" else "")).
      str_norm. reflexivity.
    + exists ("[" ++ Reg_str b ++ "], " ++ offset_text o ++ ", "), "".
      str_norm. reflexivity.
  - intros Ho text Ht Hc. simpl in Ho. subst off.
    assert (Hsharp : In "#"%char (chars text)).
    { apply (Contains_char _ _ _ Hc). unfold Shift_str.
      rewrite !chars_app. apply in_or_app. right. simpl. tauto. }
    apply has_char_spec in Hsharp.
    destruct pre; [|discriminate Ht].
    injection Ht as <-. destruct b, wb; discriminate Hsharp.
Qed.

(** C3, witness: the pre-indexed operand [base=R0, offset=4] with the shift
    [LSL #2]. *)
Lemma C3_witness :
  Contains (Shift_str (lsl 2)) "[R0, #4, LSL #2]".
Proof.
  exact (proj2 (proj1 (C3_shift_rendered_with_any_offset
                         (mkMem r0 (Some (OffInt 4)) (Some (lsl 2)) true false)
                         (lsl 2) eq_refl)
                  (OffInt 4) eq_refl)
           "[R0, #4, LSL #2]" eq_refl).
Defined.

(** C3, the claim as stated fails: with the integer offset 4 and the shift
    [LSL #2], the operand renders as [[R0, #4, LSL #2]], which contains the
    text of the shift. *)
Lemma C3_counterexample :
  Mem_str (mkMem r0 (Some (OffInt 4)) (Some (lsl 2)) true false)
  = Ok "[R0, #4, LSL #2]"
  /\ Shift_str (lsl 2) = "LSL #2"
  /\ Contains (Shift_str (lsl 2)) "[R0, #4, LSL #2]".
Proof.
  repeat split. now exists "[R0, #4, ", "]".
Qed.

(** With the flag-set request, the mnemonic of an operation named by the
    set literal of the code is the operation name and the condition; the
    mnemonic of every other operation has an [S] after the condition. *)
Lemma Instr_mnem_flag_set (i : Instr) :
  setflags i = true ->
  (In (op i) no_S_ops ->
     Instr_mnem i = Ops_str (op i) ++ Cond_str (cond i))
  /\ (~ In (op i) no_S_ops ->
      Instr_mnem i = Ops_str (op i) ++ Cond_str (cond i) ++ "S").
Proof.
  intros Hs. unfold Instr_mnem. rewrite Hs. cbn [andb]. split.
  - intros Hin. apply no_S_names in Hin. rewrite Hin. cbn [negb].
    now rewrite str_app_nil_r.
  - intros Hout.
    destruct (str_in (Ops_str (op i)) no_S) eqn:E; [|reflexivity].
    apply no_S_names in E. contradiction.
Qed.

(** C5, where the code departs from the claim. [LDRH] and [LDRSH] belong to
    the load/store family, as [LDR], [STR], [LDRB] and [STRB] do, but the
    set literal of [Instr.__str__] does not name them: with the flag-set
    request a halfword load renders with an [S] appended, for every
    condition, while the byte and word loads and stores render without. *)
Theorem C5_halfword_loads_take_S :
  Instr_str (mkInstr LDRH [OReg r0; OMem (mkMem r1 None None true false)]
               AL true None)
  = Ok "LDRHS R0, [R1]"
  /\ Instr_str (mkInstr LDRSH [OReg r0; OMem (mkMem r1 None None true false)]
                  AL true None)
     = Ok "LDRSHS R0, [R1]"
  /\ Instr_str (mkInstr LDRB [OReg r0; OMem (mkMem r1 None None true false)]
                  AL true None)
     = Ok "LDRB R0, [R1]"
  /\ Instr_str (mkInstr LDR [OReg r0; OMem (mkMem r1 None None true false)]
                  AL true None)
     = Ok "LDR R0, [R1]"
  /\ (forall (os : list Opnd) (c : Cond) (cmt : option string),
        Instr_mnem (mkInstr LDRH os c true cmt) = "LDRH" ++ Cond_str c ++ "S"
        /\ Instr_mnem (mkInstr LDRSH os c true cmt)
           = "LDRSH" ++ Cond_str c ++ "S"
        /\ Instr_mnem (mkInstr LDRB os c true cmt) = "LDRB" ++ Cond_str c
        /\ Instr_mnem (mkInstr STRB os c true cmt) = "STRB" ++ Cond_str c).
Proof.
  repeat split; try reflexivity;
    unfold Instr_mnem; cbn; now rewrite ?str_app_nil_r.
Qed.

(** C6. Rendering a post-indexed memory operand raises [AddressingError]
    exactly when the offset is absent; with an offset it yields [[] + base
    + [], ] + the offset text, followed by [, ] and the shift text when a
    shift is present. *)
Theorem C6_post_indexed_rendering :
  forall (b : Reg) (off : option Offset) (sh : option Shift) (wb : bool),
    (Mem_str (mkMem b off sh false wb) = Raise AddressingError <-> off = None)
    /\ match off with
       | None => Mem_str (mkMem b off sh false wb) = Raise AddressingError
       | Some o =>
           Mem_str (mkMem b off sh false wb)
           = Ok ("[" ++ Reg_str b ++ "], " ++ offset_text o ++ shift_text sh)
       end
    /\ Mem_str (mkMem r0 (Some (OffInt 4)) None false wb) = Ok "[R0], #4".
Proof.
  intros b off sh wb.
  assert (Hsome : forall o,
    Mem_str (mkMem b (Some o) sh false wb)
    = Ok ("[" ++ Reg_str b ++ "], " ++ offset_text o ++ shift_text sh)).
  { intros o. unfold Mem_str. cbn [offset shift pre_indexed base].
    destruct o, sh; cbn [offset_text shift_text]; str_norm; reflexivity. }
  split; [|split].
  - destruct off as [o|].
    + rewrite Hsome. split; discriminate.
    + split; reflexivity.
  - destruct off as [o|]; [apply Hsome | reflexivity].
  - reflexivity.
Qed.

(** C7. The stream made by [initial], then [mov] of the immediate 5 (given
    as an integer or as an [Imm]) into [R0], then [svc], holds five lines,
    and [text] joins them by newlines and ends them with one newline. *)
Theorem C7_prologue_mov_svc_text :
  let prologue := [".section .text"; ".global _start"; "_start:"] in
  let program := List.app prologue ["MOV R0, #5"; "SVC #0"] in
  Asm.initial = Ok prologue
  /\ (Asm.mov r0 (SrcImm (IInt 5)) AL false None ;; Asm.svc)%method prologue
     = (Ok tt, program)
  /\ (Asm.mov r0 (SrcImm (IImm (mkImm 5))) AL false None ;; Asm.svc)%method
       prologue
     = (Ok tt, program)
  /\ Asm.text program
     = ".section .text" ++ nl ++ ".global _start" ++ nl ++ "_start:" ++ nl
       ++ "MOV R0, #5" ++ nl ++ "SVC #0" ++ nl.
Proof. repeat split. Qed.

(** C8. [label] raises [InvalidLabelError] exactly when the name is empty or
    contains a whitespace character, and then leaves the lines as they were;
    for every other name it appends the name followed by a colon. *)
Theorem C8_label_validity :
  forall (name : string) (lines : Lines),
    (Asm.label name lines = (Raise InvalidLabelError, lines)
     <-> name = "" \/ has_space name)
    /\ (Asm.label name lines = (Ok tt, List.app lines [name ++ ":"])
        <-> ~ (name = "" \/ has_space name))
    /\ Asm.label "" lines = (Raise InvalidLabelError, lines)
    /\ Asm.label "a b" lines = (Raise InvalidLabelError, lines)
    /\ Asm.label "loop1" lines = (Ok tt, List.app lines ["loop1:"]).
Proof.
  intros name lines.
  assert (Hbad :
    (name =? "") || existsb isspace (chars name) = true
    <-> name = "" \/ has_space name).
  { rewrite orb_true_iff, String.eqb_eq. unfold has_space.
    now rewrite existsb_exists. }
  unfold Asm.label at 1 2, raise, append.
  destruct ((name =? "") || existsb isspace (chars name)) eqn:E.
  - assert (Hyes : name = "" \/ has_space name) by now apply Hbad.
    repeat split; trivial; try discriminate. intros Hno. contradiction.
  - assert (Hno : ~ (name = "" \/ has_space name)).
    { intros H. apply Hbad in H. discriminate H. }
    repeat split; trivial; try discriminate. intros H. contradiction.
Qed.

(** C9. Whenever a call of a builder method raises, the lines after the
    call are the lines before it. *)
Theorem C9_raising_call_leaves_lines :
  forall (c : Asm.call) (lines lines' : Lines) (e : exn),
    Asm.run c lines = (Raise e, lines') -> lines' = lines.
Proof.
  intros c lines lines' e.
  destruct c; cbn [Asm.run];
    try (unfold Asm.add, Asm.sub, Asm.and_, Asm.orr, Asm.eor, Asm._dataproc;
         destruct op2 as [r|[n|i]|rm sh]);
    try apply emit_atomic; try apply label_atomic;
    unfold Asm.directive, Asm.comment, Asm.global_, Asm.clear, append;
    intros H; discriminate H.
Qed.

(** C9, witness: a load from a post-indexed operand without offset, on a
    stream of one line. *)
Lemma C9_witness :
  Asm.run (Asm.Ldr r0 (mkMem r1 None None false false) AL) ["_start:"]
  = (Raise AddressingError, ["_start:"])
  /\ ["_start:"] = ["_start:"].
Proof.
  split; [reflexivity|].
  exact (C9_raising_call_leaves_lines
           (Asm.Ldr r0 (mkMem r1 None None false false) AL)
           ["_start:"] ["_start:"] AddressingError eq_refl).
Defined.

(** ** Further checks on concrete inputs *)

(** [LDRH] and [LDRSH] are not named by the exclusion set: with the
    flag-set request their mnemonic takes the [S]. *)
Example LDRH_takes_S :
  Instr_str (mkInstr LDRH [OReg r0; OMem (mem r1 None None true false)]
               AL true None)
  = Ok "LDRHS R0, [R1]"
  /\ Instr_mnem (mkInstr LDRSH [] AL true None) = "LDRSHS".
Proof. split; reflexivity. Qed.

(** A condition suffix may itself end in [S]: the suffix of the flag-set
    request comes after it. *)
Example branch_CS_keeps_its_own_S :
  Instr_mnem (mkInstr B [OStr "loop"] CS true None) = "BCS".
Proof. reflexivity. Qed.

Example Mem_str_pre_write_back :
  Mem_str (mem r0 (Some (OffInt 4)) None true true) = Ok "[R0, #4]!"
  /\ Mem_str (mem r0 (Some (OffInt 4)) None true false) = Ok "[R0, #4]".
Proof. split; reflexivity. Qed.

Example Mem_str_register_offset_shift :
  Mem_str (mem r1 (Some (OffReg r2)) (Some (lsl 2)) true false)
  = Ok "[R1, R2, LSL #2]".
Proof. reflexivity. Qed.

Example Imm_str_negative : Imm_str (imm (IInt (-12))) = "#-12".
Proof. reflexivity. Qed.

(** A comment follows the operands after a space, and the bare mnemonic
    directly. *)
Example Instr_str_comment :
  Instr_str (mkInstr NOP [] AL false (Some "idle")) = Ok "NOP; idle"
  /\ Instr_str (mkInstr MOV [OReg r0; OReg r1] AL false (Some "copy"))
     = Ok "MOV R0, R1 ; copy".
Proof. split; reflexivity. Qed.

(** [clear] then [text] gives the empty string. *)
Example clear_then_text (lines : Lines) :
  Asm.text (snd (Asm.clear lines)) = "".
Proof. reflexivity. Qed.

(** A shifted third operand given to [add] with [EQ] and the flag-set
    request, next to the plain-register form with the same requests. *)
Example add_shifted_against_plain :
  Asm.add r0 r1 (Op2Shifted r2 (lsl 2)) EQ true Asm.new
  = (Ok tt, ["ADD R0, R1, R2, LSL #2"])
  /\ Asm.add r0 r1 (Op2Reg r2) EQ true Asm.new = (Ok tt, ["ADDEQS R0, R1, R2"]).
Proof. split; reflexivity. Qed.

(** ** Further properties of the rendering *)

Section Rendering.





Lemma solid_end_Reg_str (r : Reg) : solid_end (Reg_str r).
Proof. destruct r; (apply solid_end_no_space; [reflexivity | discriminate]). Qed.

Lemma solid_end_Imm_str (i : Imm) : solid_end (Imm_str i).
Proof. unfold Imm_str. apply solid_end_app, solid_end_str_int. Qed.

Lemma solid_end_offset_text (o : Offset) : solid_end (offset_text o).
Proof.
  destruct o; cbn [offset_text];
    [apply solid_end_app, solid_end_str_int | apply solid_end_Reg_str].
Qed.

(** A rendered memory operand does not end in whitespace. *)
Lemma Mem_str_solid (m : Mem) (text : string) :
  Mem_str m = Ok text -> solid_end text.
Proof.
  destruct m as [b off sh pre wb]. unfold Mem_str.
  cbn [base offset shift pre_indexed write_back].
  assert (Hclose : forall w : bool, solid_end ("]" ++ (if w then "!" else ""))).
  { intros []; (apply solid_end_no_space; [reflexivity | discriminate]). }
  destruct pre.
  - intros H. injection H as <-.
    apply (solid_end_app "["), solid_end_app. exact (Hclose wb).
  - destruct off as [o|]; [|discriminate]. intros H. injection H as <-.
    apply (solid_end_app "["), solid_end_app, (solid_end_app "], ").
    destruct sh as [s|].
    + apply solid_end_app, (solid_end_app ", "), solid_end_Shift_str.
    + apply (solid_end_offset_text o).
Qed.

(** The line of an instruction without comment whose operand list does not
    end in whitespace. *)
Lemma Instr_str_solid o os c s rendered :
  Opnds_str os = Ok rendered ->
  solid_end (join ", " rendered) ->
  Instr_str (mkInstr o os c s None)
  = Ok (Instr_mnem (mkInstr o os c s None) ++ " " ++ join ", " rendered).
Proof.
  intros Hos Hend. unfold Instr_str. cbn [operands comment]. rewrite Hos.
  now rewrite solid_end_rstrip by (do 2 apply solid_end_app; exact Hend).
Qed.

Lemma emit_shape o os c s cmt (lines lines' : Lines) :
  Asm.emit o os c s cmt lines = (Ok tt, lines') ->
  exists line,
    Instr_str (mkInstr o os c s cmt) = Ok line
    /\ lines' = List.app lines [line].
Proof.
  unfold Asm.emit, bind, eval, append.
  destruct (Instr_str _) as [line|e]; intros H; inversion H.
  now exists line.
Qed.

End Rendering.



(** X2. [ldr], [str] and [strb] append the mnemonic with the condition, a
    space, the register, [, ] and the text of the memory operand; when the
    memory operand does not render, they raise its error and keep the
    lines. *)
Theorem X2_load_store_lines :
  forall (rd : Reg) (address : Mem) (c : Cond) (lines : Lines),
    let result_of (name : string) :=
      match Mem_str address with
      | Ok text =>
          (Ok tt,
           List.app lines
             [name ++ Cond_str c ++ " " ++ Reg_str rd ++ ", " ++ text])
      | Raise e => (Raise e, lines)
      end in
    Asm.ldr rd address c lines = result_of "LDR"
    /\ Asm.str rd address c lines = result_of "STR"
    /\ Asm.strb rd address c lines = result_of "STRB".
Proof.
  intros rd address c lines result_of. unfold result_of.
  assert (Hgen : forall o,
    Asm.emit o [OReg rd; OMem address] c false None lines
    = match Mem_str address with
      | Ok text =>
          (Ok tt,
           List.app lines
             [Ops_str o ++ Cond_str c ++ " " ++ Reg_str rd ++ ", " ++ text])
      | Raise e => (Raise e, lines)
      end).
  { intros o. destruct (Mem_str address) as [text|e] eqn:E.
    - apply emit_Ok.
      rewrite (Instr_str_plain o _ c [Reg_str rd; text]).
      + reflexivity.
      + cbn [Opnds_str Opnd_str]. now rewrite E.
      + unfold join. cbn [concat]. do 2 apply solid_end_app.
        now apply (Mem_str_solid address).
    - apply emit_Raise. unfold Instr_str.
      cbn [operands Opnds_str Opnd_str]. now rewrite E. }
  repeat split; apply Hgen.
Qed.

(** X3. Of the methods that change the stream ([emit], [label],
    [directive], [comment], [global_], the instruction helpers from [mov] to
    [svc], and [clear]; not [text], which only reads the lines, nor the
    static [initial], which makes a new stream of three lines): a call that
    returns either is [clear], which leaves no line, or appends exactly one
    line after the lines it found; the appended line does not depend on the
    lines found. *)
Theorem X3_returning_call_appends_one_line :
  forall (c : Asm.call) (lines lines' : Lines),
    Asm.run c lines = (Ok tt, lines') ->
    (c = Asm.Clear /\ lines' = [])
    \/ (exists line,
          lines' = List.app lines [line]
          /\ forall other, Asm.run c other = (Ok tt, List.app other [line])).
Proof.
  intros c lines lines'.
  assert (Hemit : forall o os cd s cmt,
    Asm.emit o os cd s cmt lines = (Ok tt, lines') ->
    exists line,
      lines' = List.app lines [line]
      /\ forall other, Asm.emit o os cd s cmt other
                       = (Ok tt, List.app other [line])).
  { intros o os cd s cmt H. apply emit_shape in H as (line & Hl & ->).
    exists line. split; [reflexivity|]. intros other. now apply emit_Ok. }
  assert (Happ : forall line,
    append line lines = (Ok tt, lines') ->
    exists line0,
      lines' = List.app lines [line0]
      /\ forall other, append line other = (Ok tt, List.app other [line0])).
  { intros line H. unfold append in H. injection H as <-. now exists line. }
  destruct c; cbn [Asm.run];
    try (intros H; right; revert H;
         unfold Asm.mov, Asm.add, Asm.sub, Asm.and_, Asm.orr, Asm.eor,
           Asm._dataproc, Asm.ldr, Asm.str, Asm.strb, Asm.b, Asm.bl, Asm.bx,
           Asm.push, Asm.pop, Asm.svc, Asm.directive, Asm.comment,
           Asm.global_;
         try destruct op2 as [r|[n|i]|rm sh];
         solve [apply Hemit | apply Happ]).
  - intros H. right. revert H. unfold Asm.label, raise.
    destruct (_ || _); [discriminate | apply Happ].
  - intros H. left. unfold Asm.clear in H. injection H as <-. now split.
Qed.

(** X3, witness: a [mov] on a stream of one line. *)
Lemma X3_witness :
  (Asm.Mov r0 (SrcImm (IInt 5)) AL false None = Asm.Clear
   /\ ["_start:"; "MOV R0, #5"] = [])
  \/ (exists line,
        ["_start:"; "MOV R0, #5"] = List.app ["_start:"] [line]
        /\ forall other,
             Asm.run (Asm.Mov r0 (SrcImm (IInt 5)) AL false None) other
             = (Ok tt, List.app other [line])).
Proof.
  exact (X3_returning_call_appends_one_line
           (Asm.Mov r0 (SrcImm (IInt 5)) AL false None)
           ["_start:"] ["_start:"; "MOV R0, #5"] eq_refl).
Defined.

(** ** Names and mnemonics *)

Section Names.

Lemma Reg_str_inj (a b : Reg) : Reg_str a = Reg_str b -> a = b.
Proof. destruct a, b; intros H; try reflexivity; discriminate H. Qed.

Lemma Cond_str_inj (a b : Cond) : Cond_str a = Cond_str b -> a = b.
Proof. destruct a, b; intros H; try reflexivity; discriminate H. Qed.

Lemma Ops_str_inj (a b : Ops) : Ops_str a = Ops_str b -> a = b.
Proof. destruct a, b; intros H; try reflexivity; discriminate H. Qed.

Lemma Instr_mnem_parts (i : Instr) : Instr_mnem i = mnem_of (mnem_parts i).
Proof. reflexivity. Qed.

Lemma mnem_parts_listed (i : Instr) : In (mnem_parts i) all_parts.
Proof.
  unfold mnem_parts, all_parts.
  apply in_flat_map. exists (op i). split.
  { destruct (op i); cbn; tauto. }
  apply in_flat_map. exists (cond i). split.
  { destruct (cond i); cbn; tauto. }
  destruct (setflags i), (str_in (Ops_str (op i)) no_S); cbn; tauto.
Qed.

Lemma mnem_clash_free_true : mnem_clash_free = true.
Proof. vm_compute. reflexivity. Qed.

Lemma str_int_inj (a b : Z) : str_int a = str_int b -> a = b.
Proof.
  unfold str_int. intros H.
  assert (Hnorm : forall z,
    NilZero.int_of_string (NilZero.string_of_int (Z.to_int z))
    = Some (Z.to_int z)).
  { intros z. apply NilZero.isi; destruct z as [|p|p]; cbn;
      try discriminate; intros E; injection E as E;
      now apply (DecimalPos.Unsigned.to_uint_nonnil p). }
  assert (E : Some (Z.to_int a) = Some (Z.to_int b))
    by now rewrite <- !Hnorm, H.
  injection E as E.
  now rewrite <- (DecimalZ.of_to a), <- (DecimalZ.of_to b), E.
Qed.

End Names.

(** X4. The mnemonic of an instruction determines its operation, its
    condition and whether an [S] was appended: no two mnemonics coincide by
    accident (as [B] with [LS] and [BL] with [S] would, were [BL] not in
    the exclusion set). *)
Theorem X4_mnemonic_determines_its_parts :
  forall i j : Instr,
    Instr_mnem i = Instr_mnem j ->
    op i = op j /\ cond i = cond j
    /\ setflags i && negb (str_in (Ops_str (op i)) no_S)
       = setflags j && negb (str_in (Ops_str (op j)) no_S).
Proof.
  intros i j H. rewrite !Instr_mnem_parts in H.
  pose proof mnem_clash_free_true as Hfree. unfold mnem_clash_free in Hfree.
  rewrite forallb_forall in Hfree.
  specialize (Hfree _ (mnem_parts_listed i)).
  rewrite forallb_forall in Hfree.
  specialize (Hfree _ (mnem_parts_listed j)).
  apply String.eqb_eq in H. rewrite H in Hfree. cbn [implb] in Hfree.
  unfold mnem_parts in Hfree.
  apply andb_true_iff in Hfree as [Hoc Hs].
  apply andb_true_iff in Hoc as [Ho Hc].
  apply String.eqb_eq, Ops_str_inj in Ho.
  apply String.eqb_eq, Cond_str_inj in Hc.
  apply Bool.eqb_prop in Hs. now repeat split.
Qed.

(** X4, witness: [B] with [LS], once with the flag-set request and once
    without, both [BLS]. *)
Lemma X4_witness :
  B = B /\ LS = LS
  /\ true && negb (str_in (Ops_str B) no_S)
     = false && negb (str_in (Ops_str B) no_S).
Proof.
  exact (X4_mnemonic_determines_its_parts
           (mkInstr B [OStr "loop"] LS true None)
           (mkInstr B [] LS false None) eq_refl).
Defined.

(** X5. Distinct registers, distinct operations and distinct conditions
    have distinct names. *)
Theorem X5_names_are_distinct :
  forall (a b : Reg) (o o' : Ops) (c c' : Cond),
    Reg_str a = Reg_str b ->
    Ops_str o = Ops_str o' ->
    Cond_str c = Cond_str c' ->
    a = b /\ o = o' /\ c = c'.
Proof.
  intros a b o o' c c' Hr Ho Hc.
  now rewrite (Reg_str_inj a b Hr), (Ops_str_inj o o' Ho),
    (Cond_str_inj c c' Hc).
Qed.

Lemma X5_witness : sp = sp /\ LDRB = LDRB /\ AL = AL.
Proof.
  exact (X5_names_are_distinct sp sp LDRB LDRB AL AL eq_refl eq_refl eq_refl).
Defined.

(** X6. The text of an immediate determines its value, and the text of an
    offset determines the offset: distinct immediates and distinct offsets
    of a memory operand render as distinct texts. *)
Theorem X6_immediate_text_determines_value :
  forall (i j : Imm) (o o' : Offset),
    Imm_str i = Imm_str j ->
    offset_text o = offset_text o' ->
    i = j /\ o = o'.
Proof.
  intros [a] [b] o o'. unfold Imm_str. cbn [value]. intros Hi Ho.
  injection Hi as Hi. rewrite (str_int_inj a b Hi). split; [reflexivity|].
  destruct o as [x|r], o' as [y|r']; cbn [offset_text] in Ho.
  - injection Ho as Ho. now rewrite (str_int_inj x y Ho).
  - destruct r'; discriminate Ho.
  - destruct r; discriminate Ho.
  - now rewrite (Reg_str_inj r r' Ho).
Qed.

Lemma X6_witness : mkImm (-12) = mkImm (-12) /\ OffReg r2 = OffReg r2.
Proof.
  exact (X6_immediate_text_determines_value
           (mkImm (-12)) (mkImm (-12)) (OffReg r2) (OffReg r2)
           eq_refl eq_refl).
Defined.

(** ** Whitespace at the end of a line, and the flattened text *)

Section Text.

Lemma str_length_app (a b : string) :
  String.length (a ++ b) = (String.length a + String.length b)%nat.
Proof. induction a as [|ch a IH]; simpl; [reflexivity | now rewrite IH]. Qed.

Lemma rstrip_idem (s : string) : rstrip (rstrip s) = rstrip s.
Proof.
  induction s as [|ch s IH]; simpl; [reflexivity|].
  destruct (rstrip s) as [|x y] eqn:E.
  - destruct (isspace ch) eqn:Ech; simpl; [reflexivity | now rewrite Ech].
  - change (rstrip (String ch (String x y))) with
      (match rstrip (String x y) with
       | EmptyString => if isspace ch then EmptyString else String ch EmptyString
       | kept => String ch kept
       end).
    now rewrite IH.
Qed.

Lemma rstrip_length (s : string) :
  (String.length (rstrip s) <= String.length s)%nat.
Proof.
  induction s as [|ch s IH]; simpl; [lia|].
  destruct (rstrip s); [destruct (isspace ch)|]; simpl in *; lia.
Qed.

Lemma substring_whole (s : string) : substring 0 (String.length s) s = s.
Proof. induction s as [|ch s IH]; simpl; [reflexivity | now rewrite IH]. Qed.

Lemma substring_app_r (a b : string) :
  substring (String.length a) (String.length b) (a ++ b) = b.
Proof. induction a as [|ch a IH]; simpl; [apply substring_whole | exact IH]. Qed.

Lemma substring_split (s : string) (k : nat) :
  (k <= String.length s)%nat ->
  s = substring 0 k s ++ substring k (String.length s - k) s.
Proof.
  revert k. induction s as [|ch s IH]; intros k Hk; simpl in *.
  - destruct k; [reflexivity | lia].
  - destruct k as [|k]; simpl.
    + now rewrite substring_whole.
    + f_equal. apply IH. lia.
Qed.

(** [endswith] is the test for a suffix. *)
Lemma endswith_spec (s suffix : string) :
  endswith s suffix = true <-> exists before, s = before ++ suffix.
Proof.
  unfold endswith. rewrite andb_true_iff, Nat.leb_le, String.eqb_eq. split.
  - intros [Hle Hsub].
    exists (substring 0 (String.length s - String.length suffix) s).
    assert (Hk : (String.length s - String.length suffix
                  <= String.length s)%nat) by lia.
    pose proof (substring_split s _ Hk) as Hsplit.
    replace (String.length s - (String.length s - String.length suffix))%nat
      with (String.length suffix) in Hsplit by lia.
    now rewrite Hsub in Hsplit.
  - intros [before ->]. rewrite str_length_app. split; [lia|].
    replace (String.length before + String.length suffix
             - String.length suffix)%nat
      with (String.length before) by lia.
    apply substring_app_r.
Qed.

(** A string that [rstrip] keeps whole does not end in a line feed. *)
Lemma kept_not_ended (s : string) : rstrip s = s -> endswith s nl = false.
Proof.
  intros Hkeep. destruct (endswith s nl) eqn:E; [|reflexivity].
  apply endswith_spec in E as [before ->].
  pose proof (rstrip_length before) as Hlen.
  rewrite rstrip_app in Hkeep. cbn in Hkeep.
  apply (f_equal String.length) in Hkeep.
  rewrite str_length_app in Hkeep. cbn in Hkeep. lia.
Qed.

Lemma join_cons (sep x : string) (l : list string) :
  l <> [] -> join sep (x :: l) = x ++ sep ++ join sep l.
Proof. destruct l; [contradiction | reflexivity]. Qed.

Lemma join_ends_in_last (sep : string) (l : list string) :
  l <> [] -> exists before, join sep l = before ++ last l "".
Proof.
  induction l as [|x l IH]; [contradiction|]. intros _.
  destruct l as [|y l].
  - now exists "".
  - destruct IH as [before Hb]; [discriminate|].
    exists (x ++ sep ++ before).
    rewrite join_cons by discriminate. rewrite Hb.
    rewrite ?str_app_assoc; reflexivity.
Qed.

Lemma text_single (x : string) :
  Asm.text [x] = x ++ (if endswith x nl then "" else nl).
Proof. unfold Asm.text. cbn. now destruct (endswith x nl). Qed.

Lemma text_cons (x : string) (l : list string) :
  l <> [] -> Asm.text (x :: l) = x ++ nl ++ Asm.text l.
Proof.
  destruct l as [|y l]; [contradiction|]. intros _. unfold Asm.text.
  rewrite join_cons by discriminate.
  change (last (x :: y :: l) "") with (last (y :: l) "").
  cbn [List.length Nat.eqb negb andb]. rewrite ?str_app_assoc; reflexivity.
Qed.

Lemma open_end_tail (x y : string) (l : list string) :
  open_end (x :: y :: l) -> open_end (y :: l).
Proof. intros [H|H]; [discriminate H | now right]. Qed.

Lemma text_open (l : list string) : open_end l -> Asm.text l = ended l.
Proof.
  induction l as [|x l IH]; intros Hopen; [reflexivity|].
  destruct l as [|y l].
  - destruct Hopen as [H|H]; [discriminate H|]. cbn in H.
    rewrite text_single, H. unfold ended. cbn. reflexivity.
  - rewrite text_cons by discriminate.
    rewrite (IH (open_end_tail _ _ _ Hopen)).
    unfold ended. cbn [map concat]. rewrite ?str_app_assoc; reflexivity.
Qed.

Lemma text_app (l1 l2 : list string) :
  open_end l1 -> Asm.text (List.app l1 l2) = Asm.text l1 ++ Asm.text l2.
Proof.
  induction l1 as [|x l1 IH]; intros Hopen; [reflexivity|].
  destruct l1 as [|y l1].
  - destruct Hopen as [H|H]; [discriminate H|]. cbn in H.
    rewrite text_single, H. destruct l2 as [|z l2].
    + cbn [List.app]. rewrite text_single, H. cbn. now rewrite !str_app_nil_r.
    + cbn [List.app]. rewrite text_cons by discriminate.
      rewrite ?str_app_assoc; reflexivity.
  - cbn [List.app].
    rewrite (text_cons x (y :: List.app l1 l2)) by discriminate.
    rewrite (text_cons x (y :: l1)) by discriminate.
    cbn [List.app] in IH. rewrite (IH (open_end_tail _ _ _ Hopen)).
    rewrite ?str_app_assoc; reflexivity.
Qed.

End Text.

(** X7. The flattened text of a stream is empty for the empty stream and
    ends in a line feed for every other stream; it is the lines joined by
    line feeds, followed by one more line feed unless the last line brings
    its own. *)
Theorem X7_text_ends_in_line_feed :
  forall (first : string) (rest : list string),
    Asm.text [] = ""
    /\ endswith (Asm.text (first :: rest)) nl = true
    /\ Asm.text (first :: rest)
       = join nl (first :: rest)
         ++ (if endswith (last (first :: rest) "") nl then "" else nl).
Proof.
  intros first rest. split; [reflexivity|].
  assert (Htext :
    Asm.text (first :: rest)
    = join nl (first :: rest)
      ++ (if endswith (last (first :: rest) "") nl then "" else nl)).
  { unfold Asm.text. cbn [List.length Nat.eqb negb andb].
    now destruct (endswith (last (first :: rest) "") nl). }
  split; [|exact Htext].
  rewrite Htext. apply endswith_spec.
  destruct (endswith (last (first :: rest) "") nl) eqn:E.
  - apply endswith_spec in E as [before Hb].
    destruct (join_ends_in_last nl (first :: rest)) as [before' Hj];
      [discriminate|].
    exists (before' ++ before). rewrite Hj, Hb. now str_norm.
  - now exists (join nl (first :: rest)).
Qed.

(** X8. When the last line of a stream does not end in a line feed, the
    text of the stream is each of its lines followed by a line feed, and
    the text of the stream continued by a second stream is the text of the
    first followed by the text of the second. *)
Theorem X8_text_of_continued_stream :
  forall (lines more : list string),
    open_end lines ->
    Asm.text lines = ended lines
    /\ Asm.text (List.app lines more) = Asm.text lines ++ Asm.text more.
Proof.
  intros lines more Hopen. split; [now apply text_open | now apply text_app].
Qed.

(** X8, witness: a stream of two lines continued by a stream of one. *)
Lemma X8_witness :
  Asm.text ["_start:"; "MOV R0, #5"] = ended ["_start:"; "MOV R0, #5"]
  /\ Asm.text (List.app ["_start:"; "MOV R0, #5"] ["SVC #0"])
     = Asm.text ["_start:"; "MOV R0, #5"] ++ Asm.text ["SVC #0"].
Proof.
  exact (X8_text_of_continued_stream ["_start:"; "MOV R0, #5"] ["SVC #0"]
           (or_intror eq_refl)).
Defined.

(** X9. A line appended by [emit] without comment does not end in
    whitespace, whatever the operands: [rstrip] keeps it whole, it does not
    end in a line feed, and the text of the stream ends in this line and
    one line feed. *)
Theorem X9_emitted_line_has_no_trailing_whitespace :
  forall (o : Ops) (os : list Opnd) (c : Cond) (s : bool)
         (lines lines' : Lines),
    Asm.emit o os c s None lines = (Ok tt, lines') ->
    exists line,
      lines' = List.app lines [line]
      /\ rstrip line = line
      /\ endswith line nl = false
      /\ Asm.text lines' = join nl lines' ++ nl.
Proof.
  intros o os c s lines lines' H.
  apply emit_shape in H as (line & Hline & ->).
  assert (Hkeep : rstrip line = line).
  { unfold Instr_str in Hline. cbn [operands comment] in Hline.
    destruct (Opnds_str os) as [rendered|e]; [|discriminate Hline].
    injection Hline as <-. apply rstrip_idem. }
  pose proof (kept_not_ended line Hkeep) as Hopen.
  exists line. repeat split; trivial.
  unfold Asm.text. rewrite last_last, Hopen.
  destruct lines; reflexivity.
Qed.

(** X9, witness: a branch whose target ends in spaces. *)
Lemma X9_witness :
  exists line,
    ["B loop"] = List.app [] [line]
    /\ rstrip line = line
    /\ endswith line nl = false
    /\ Asm.text ["B loop"] = join nl ["B loop"] ++ nl.
Proof.
  exact (X9_emitted_line_has_no_trailing_whitespace
           B [OStr "loop  "] AL false [] ["B loop"] eq_refl).
Defined.

(** X10. An instruction without operands renders as its bare mnemonic, with
    no space after it; a comment, when there is one, follows the mnemonic
    directly, and an empty comment is no comment. *)
Theorem X10_instruction_without_operands :
  forall (o : Ops) (c : Cond) (s : bool) (cmt : option string),
    Instr_str (mkInstr o [] c s cmt)
    = Ok (Instr_mnem (mkInstr o [] c s cmt)
          ++ match cmt with
             | None | Some EmptyString => ""
             | Some text => "; " ++ text
             end).
Proof.
  intros o c s cmt. unfold Instr_str. cbn [operands Opnds_str comment].
  assert (Hbare :
    rstrip (Instr_mnem (mkInstr o [] c s cmt) ++ " " ++ join ", " [])
    = Instr_mnem (mkInstr o [] c s cmt)).
  { rewrite rstrip_app. cbn. apply rstrip_no_space, no_space_mnem. }
  rewrite Hbare.
  destruct cmt as [[|ch text]|]; cbn; now rewrite ?str_app_nil_r.
Qed.

(** ** Lines of the helpers and of the generators *)

Section Helpers.

(** The line of an instruction whose operand list does not end in
    whitespace, with or without comment. *)
Lemma Instr_str_commented o os c s cmt rendered :
  Opnds_str os = Ok rendered ->
  solid_end (join ", " rendered) ->
  Instr_str (mkInstr o os c s cmt)
  = Ok (Instr_mnem (mkInstr o os c s cmt) ++ " " ++ join ", " rendered
        ++ comment_text cmt).
Proof.
  intros Hos Hend. unfold Instr_str. cbn [operands comment]. rewrite Hos.
  rewrite solid_end_rstrip by (do 2 apply solid_end_app; exact Hend).
  assert (Hops : (join ", " rendered =? "") = false).
  { apply String.eqb_neq. now destruct Hend. }
  destruct cmt as [[|ch text]|]; cbn [comment_text].
  - now rewrite !str_app_nil_r.
  - rewrite Hops. f_equal. now str_norm.
  - now rewrite !str_app_nil_r.
Qed.

(** The mnemonic of an operation outside the exclusion set. *)
Lemma mnem_flagged o os c s cmt :
  str_in (Ops_str o) no_S = false ->
  Instr_mnem (mkInstr o os c s cmt) = Ops_str o ++ Cond_str c ++ flag_text s.
Proof.
  intros H. unfold Instr_mnem. cbn [op cond setflags]. rewrite H.
  now destruct s.
Qed.

Lemma solid_end_src_text src : solid_end (src_text src).
Proof.
  destruct src; [apply solid_end_Reg_str | apply solid_end_Imm_str].
Qed.

Lemma solid_end_op2_text op2 : solid_end (op2_text op2).
Proof.
  destruct op2 as [r|x|rm sh]; cbn [op2_text].
  - apply solid_end_Reg_str.
  - apply solid_end_Imm_str.
  - do 2 apply solid_end_app. apply solid_end_Shift_str.
Qed.

Lemma mov_line rd src c s cmt (lines : Lines) :
  Asm.mov rd src c s cmt lines
  = (Ok tt,
     List.app lines
       ["MOV" ++ Cond_str c ++ flag_text s ++ " " ++ Reg_str rd ++ ", "
        ++ src_text src ++ comment_text cmt]).
Proof.
  unfold Asm.mov. apply emit_Ok.
  rewrite (Instr_str_commented MOV _ c s cmt [Reg_str rd; src_text src]).
  - rewrite mnem_flagged by reflexivity. f_equal. unfold join.
    cbn [concat Ops_str]. now str_norm.
  - destruct src as [r|[n|i]]; reflexivity.
  - unfold join. cbn [concat]. do 2 apply solid_end_app.
    apply solid_end_src_text.
Qed.

Lemma mov_plain rd src (lines : Lines) :
  Asm.mov rd src AL false None lines
  = (Ok tt, List.app lines ["MOV " ++ Reg_str rd ++ ", " ++ src_text src]).
Proof.
  rewrite mov_line. cbn [Cond_str flag_text comment_text].
  now rewrite str_app_nil_r.
Qed.

(** The line of [_dataproc]: condition and [S] as requested for a register
    or an immediate, none of them for a shifted register. *)
Lemma dataproc_line o rd rn op2 c s (lines : Lines) :
  str_in (Ops_str o) no_S = false ->
  Asm._dataproc o rd rn op2 c s lines
  = (Ok tt,
     List.app lines
       [Ops_str o
        ++ match op2 with
           | Op2Shifted _ _ => ""
           | _ => Cond_str c ++ flag_text s
           end
        ++ " " ++ Reg_str rd ++ ", " ++ Reg_str rn ++ ", " ++ op2_text op2]).
Proof.
  intros Ho.
  assert (Hgen : forall c' s' third,
    Opnd_str third = Ok (op2_text op2) ->
    Asm.emit o [OReg rd; OReg rn; third] c' s' None lines
    = (Ok tt,
       List.app lines
         [Ops_str o ++ (Cond_str c' ++ flag_text s') ++ " " ++ Reg_str rd
          ++ ", " ++ Reg_str rn ++ ", " ++ op2_text op2])).
  { intros c' s' third Hthird. apply emit_Ok.
    rewrite (Instr_str_solid o _ c' s'
               [Reg_str rd; Reg_str rn; op2_text op2]).
    - rewrite mnem_flagged by exact Ho. f_equal. unfold join.
      cbn [concat]. now str_norm.
    - cbn [Opnds_str Opnd_str]. now rewrite Hthird.
    - unfold join. cbn [concat]. do 4 apply solid_end_app.
      apply solid_end_op2_text. }
  unfold Asm._dataproc. destruct op2 as [r|[n|i]|rm sh];
    apply Hgen; reflexivity.
Qed.

Lemma svc_line (lines : Lines) :
  Asm.svc lines = (Ok tt, List.app lines ["SVC #0"]).
Proof. reflexivity. Qed.

Lemma comment_line text (lines : Lines) :
  Asm.comment text lines = (Ok tt, List.app lines ["# " ++ text]).
Proof. reflexivity. Qed.

Lemma strb_line rd b n c (lines : Lines) :
  Asm.strb rd (mkMem b (Some (OffInt n)) None true false) c lines
  = (Ok tt,
     List.app lines
       ["STRB" ++ Cond_str c ++ " " ++ Reg_str rd ++ ", ["
        ++ Reg_str b ++ ", #" ++ str_int n ++ "]"]).
Proof.
  unfold Asm.strb. apply emit_Ok.
  rewrite (Instr_str_plain STRB _ c
             [Reg_str rd; "[" ++ Reg_str b ++ ", #" ++ str_int n ++ "]"]).
  - f_equal; unfold join; cbn [concat Ops_str]; now str_norm.
  - cbn [Opnds_str Opnd_str]. unfold Mem_str.
    cbn [base offset shift pre_indexed write_back List.app join concat].
    do 3 f_equal; now str_norm.
  - unfold join. cbn [concat]. do 6 apply solid_end_app.
    apply solid_end_no_space; [reflexivity | discriminate].
Qed.

(** A call that appends a line, followed by further calls. *)
Lemma bind_line (m : Method unit) (k : unit -> Method unit) line
    (lines : Lines) :
  (forall l, m l = (Ok tt, List.app l [line])) ->
  bind m k lines = k tt (List.app lines [line]).
Proof. intros H. unfold bind. now rewrite H. Qed.

(** A call that appends lines, followed by further calls. *)
Lemma bind_lines (m : Method unit) (k : unit -> Method unit) added
    (lines : Lines) :
  (forall l, m l = (Ok tt, List.app l added)) ->
  bind m k lines = k tt (List.app lines added).
Proof. intros H. unfold bind. now rewrite H. Qed.

Lemma write_appends size (lines : Lines) :
  Syscall.write size lines = (Ok tt, List.app lines (write_lines size)).
Proof.
  unfold Syscall.write.
  rewrite (bind_line _ _ _ lines (fun l => mov_plain r7 _ l)).
  rewrite (bind_line _ _ _ _ (fun l => mov_plain r0 _ l)).
  rewrite (bind_line _ _ _ _ (fun l => mov_plain r1 _ l)).
  rewrite (bind_line _ _ _ _ (fun l => mov_plain r2 _ l)).
  rewrite svc_line. rewrite <- !app_assoc. reflexivity.
Qed.

Lemma exit_appends (lines : Lines) :
  Syscall.exit lines = (Ok tt, List.app lines exit_lines).
Proof.
  unfold Syscall.exit.
  rewrite (bind_line _ _ _ lines (fun l => mov_plain r7 _ l)).
  rewrite (bind_line _ _ _ _ (fun l => mov_plain r0 _ l)).
  rewrite svc_line. rewrite <- !app_assoc. reflexivity.
Qed.

Lemma store_chars_appends text : forall idx (lines : Lines),
  store_chars idx text lines
  = (Ok tt, List.app lines (store_lines idx text)).
Proof.
  induction text as [|t rest IH]; intros idx lines; cbn [store_chars store_lines].
  - unfold ret. now rewrite app_nil_r.
  - rewrite (bind_line _ _ _ lines (fun l => mov_plain r1 _ l)).
    rewrite (bind_line _ _ _ _ (fun l => strb_line r1 sp idx AL l)).
    rewrite IH, <- !app_assoc. reflexivity.
Qed.

Lemma store_lines_length text idx :
  List.length (store_lines idx text) = (2 * String.length text)%nat.
Proof.
  revert idx. induction text as [|t rest IH]; intros idx;
    cbn [store_lines List.length String.length]; [reflexivity|].
  rewrite IH. lia.
Qed.

End Helpers.

Section Programs.

(** The lines of [print_asm] over a text that is not empty. *)
Lemma print_asm_lines (v : Printable) :
  Printable_str v <> "" ->
  print_asm v
  = Return
      (List.app prologue
         (List.app
            ["MOV R3, SP";
             "SUB SP, SP, #" ++ str_int (n_size (Printable_str v));
             "# Allocated Stack : " ++ str_int (n_size (Printable_str v))]
            (List.app (store_lines 0 (Printable_str v))
               (List.app
                  ["MOV R1, #10";
                   "STRB R1, [SP, #" ++ str_int (len (Printable_str v))
                   ++ "]"]
                  (List.app (write_lines (len (Printable_str v) + 1))
                     (List.app
                        ["# Deallocated stack";
                         "ADD SP, SP, #"
                         ++ str_int (n_size (Printable_str v))]
                        exit_lines)))))).
Proof.
  intros Hne. unfold print_asm.
  change Asm.initial with (Ok prologue). cbv beta iota zeta.
  set (text := Printable_str v) in *.
  rewrite (bind_line _ _ _ prologue (fun l => mov_plain r3 _ l)).
  rewrite (bind_line _ _ _ _
             (fun l => dataproc_line SUB sp sp _ AL false l eq_refl)).
  rewrite (bind_line _ _ _ _ (fun l => comment_line _ l)).
  rewrite (bind_lines _ _ _ _ (fun l => store_chars_appends text 0 l)).
  rewrite mov_plain.
  destruct text as [|ch rest] eqn:E; [contradiction|]. rewrite <- E.
  rewrite (bind_line _ _ _ _ (fun l => strb_line r1 sp _ AL l)).
  rewrite (bind_lines _ _ _ _ (fun l => write_appends _ l)).
  rewrite (bind_line _ _ _ _ (fun l => comment_line _ l)).
  rewrite (bind_line _ _ _ _
             (fun l => dataproc_line ADD sp sp _ AL false l eq_refl)).
  rewrite exit_appends.
  replace (len text - 1 + 1)%Z with (len text) by lia.
  rewrite <- !app_assoc. reflexivity.
Qed.

Lemma n_size_value (text : string) : n_size text = (len text + 15)%Z.
Proof.
  unfold n_size, int_of_float. cbn.
  rewrite Z.mul_1_r. apply Z.quot_mul. discriminate.
Qed.

End Programs.



(** X12. With a third operand within the bound of [str], [add], [sub],
    [and_], [orr] and [eor] return and append the operation name, then the
    condition and the [S] as requested when the third operand is a register
    or an immediate (and neither of them when it is a shifted register),
    then the three operands. *)
Theorem X12_arithmetic_helper_lines :
  forall (rd rn : Reg) (op2 : Op2) (c : Cond) (s : bool) (lines : Lines),
    Op2_allowed op2 ->
    let line_of (name : string) :=
      name
      ++ match op2 with
         | Op2Shifted _ _ => ""
         | _ => Cond_str c ++ flag_text s
         end
      ++ " " ++ Reg_str rd ++ ", " ++ Reg_str rn ++ ", " ++ op2_text op2 in
    Asm.add rd rn op2 c s lines = (Ok tt, List.app lines [line_of "ADD"])
    /\ Asm.sub rd rn op2 c s lines = (Ok tt, List.app lines [line_of "SUB"])
    /\ Asm.and_ rd rn op2 c s lines = (Ok tt, List.app lines [line_of "AND"])
    /\ Asm.orr rd rn op2 c s lines = (Ok tt, List.app lines [line_of "ORR"])
    /\ Asm.eor rd rn op2 c s lines = (Ok tt, List.app lines [line_of "EOR"]).
Proof.
  intros rd rn op2 c s lines _ line_of. unfold line_of.
  repeat split.
  - apply (dataproc_line ADD). reflexivity.
  - apply (dataproc_line SUB). reflexivity.
  - apply (dataproc_line AND). reflexivity.
  - apply (dataproc_line ORR). reflexivity.
  - apply (dataproc_line EOR). reflexivity.
Qed.

(** X12, witness: the immediate 48 with [NE] and the flag-set request. *)
Lemma X12_witness :
  Asm.add r1 r1 (Op2Imm (IInt 48)) NE true [] = (Ok tt, ["ADDNES R1, R1, #48"])
  /\ Asm.sub r1 r1 (Op2Imm (IInt 48)) NE true []
     = (Ok tt, ["SUBNES R1, R1, #48"])
  /\ Asm.and_ r1 r1 (Op2Imm (IInt 48)) NE true []
     = (Ok tt, ["ANDNES R1, R1, #48"])
  /\ Asm.orr r1 r1 (Op2Imm (IInt 48)) NE true []
     = (Ok tt, ["ORRNES R1, R1, #48"])
  /\ Asm.eor r1 r1 (Op2Imm (IInt 48)) NE true []
     = (Ok tt, ["EORNES R1, R1, #48"]).
Proof.
  refine (X12_arithmetic_helper_lines r1 r1 (Op2Imm (IInt 48)) NE true [] _).
  apply Nat.leb_le. reflexivity.
Defined.

(** X13. [b], [bl] and [bx] never raise and never append an [S]; with the
    vocabulary of the file [bl] and [bx] use their own operations, not the
    fallback [B]. The target is not checked: trailing whitespace is
    stripped, and an empty target leaves the bare mnemonic. *)
Theorem X13_branch_lines :
  forall (target : string) (rm : Reg) (c : Cond) (lines : Lines),
    Asm.b target c lines
    = (Ok tt, List.app lines [rstrip ("B" ++ Cond_str c ++ " " ++ target)])
    /\ Asm.bl target c lines
       = (Ok tt, List.app lines [rstrip ("BL" ++ Cond_str c ++ " " ++ target)])
    /\ Asm.bx rm c lines
       = (Ok tt, List.app lines ["BX" ++ Cond_str c ++ " " ++ Reg_str rm])
    /\ Asm.b "" c lines = (Ok tt, List.app lines ["B" ++ Cond_str c])
    /\ Asm.bl "" c lines = (Ok tt, List.app lines ["BL" ++ Cond_str c]).
Proof.
  intros target rm c lines.
  assert (Hgen : forall o t,
    Asm.emit o [OStr t] c false None lines
    = (Ok tt, List.app lines [rstrip (Ops_str o ++ Cond_str c ++ " " ++ t)])).
  { intros o t. apply emit_Ok. unfold Instr_str.
    cbn [operands Opnds_str Opnd_str comment join concat].
    now rewrite mnem_plain, str_app_assoc. }
  assert (Hbare : forall o,
    rstrip (Ops_str o ++ Cond_str c ++ " " ++ "") = Ops_str o ++ Cond_str c).
  { intros o. rewrite <- str_app_assoc, rstrip_app. cbn [rstrip isspace].
    cbn. rewrite <- (mnem_plain o [] c None).
    apply rstrip_no_space, no_space_mnem. }
  repeat split.
  - apply (Hgen B).
  - apply (Hgen BL).
  - unfold Asm.bx. cbn [str_in]. apply emit_Ok.
    apply (Instr_str_plain BX [OReg rm] c [Reg_str rm]);
      [reflexivity | apply solid_end_Reg_str].
  - unfold Asm.b. rewrite (Hgen B ""). now rewrite (Hbare B).
  - change (Asm.bl "" c lines)
      with (Asm.emit BL [OStr ""] c false None lines).
    rewrite (Hgen BL ""). now rewrite (Hbare BL).
Qed.

(** X14. For a size within the bound of [str], [Syscall.write] returns and
    appends five lines to any stream: the system-call number 4 into [R7],
    the descriptor 1 into [R0], the stack pointer into [R1], the size into
    [R2], and the trap. [Syscall.exit] returns and appends three: the
    number 1 into [R7], the status 1 into [R0], and the trap. *)
Theorem X14_syscall_lines :
  forall (size : Z) (lines : Lines),
    str_allowed size ->
    Syscall.write size lines
    = (Ok tt,
       List.app lines
         ["MOV R7, #4"; "MOV R0, #1"; "MOV R1, SP";
          "MOV R2, #" ++ str_int size; "SVC #0"])
    /\ Syscall.exit lines
       = (Ok tt, List.app lines ["MOV R7, #1"; "MOV R0, #1"; "SVC #0"]).
Proof.
  intros size lines _. split; [apply write_appends | apply exit_appends].
Qed.

(** X14, witness: the write of 3 bytes. *)
Lemma X14_witness :
  Syscall.write 3 ["_start:"]
  = (Ok tt,
     ["_start:"; "MOV R7, #4"; "MOV R0, #1"; "MOV R1, SP"; "MOV R2, #3";
      "SVC #0"])
  /\ Syscall.exit ["_start:"]
     = (Ok tt, ["_start:"; "MOV R7, #1"; "MOV R0, #1"; "SVC #0"]).
Proof.
  refine (X14_syscall_lines 3 ["_start:"] _).
  apply Nat.leb_le. reflexivity.
Defined.

(** X15. For every integer within the bound of [str], [int_to_asciz]
    returns, without any check that the integer is a single digit: a
    stream of eighteen lines of which only the fourth, the [mov] of the
    value, depends on the argument. *)
Theorem X15_int_to_asciz_program :
  forall value : Z,
    str_allowed value ->
    int_to_asciz value
    = Ok [".section .text"; ".global _start"; "_start:";
          "MOV R1, #" ++ str_int value;
          "ADD R1, R1, #48"; "SUB SP, SP, #2"; "STRB R1, [SP, #0]";
          "MOV R1, #10"; "STRB R1, [SP, #1]";
          "MOV R7, #4"; "MOV R0, #1"; "MOV R1, SP"; "MOV R2, #2"; "SVC #0";
          "ADD SP, SP, #2";
          "MOV R7, #1"; "MOV R0, #1"; "SVC #0"].
Proof.
  intros value _. unfold int_to_asciz.
  change Asm.initial with (Ok prologue). cbv beta iota.
  rewrite (bind_line _ _ _ prologue (fun l => mov_plain r1 _ l)).
  reflexivity.
Qed.

(** X15, witness: a negative integer of two digits. *)
Lemma X15_witness :
  int_to_asciz (-12)
  = Ok [".section .text"; ".global _start"; "_start:";
        "MOV R1, #-12";
        "ADD R1, R1, #48"; "SUB SP, SP, #2"; "STRB R1, [SP, #0]";
        "MOV R1, #10"; "STRB R1, [SP, #1]";
        "MOV R7, #4"; "MOV R0, #1"; "MOV R1, SP"; "MOV R2, #2"; "SVC #0";
        "ADD SP, SP, #2";
        "MOV R7, #1"; "MOV R0, #1"; "SVC #0"].
Proof.
  refine (X15_int_to_asciz_program (-12) _).
  apply Nat.leb_le. reflexivity.
Defined.

(** X16. For a text, or an integer within the bound of [str], [print_asm]
    raises exactly when the text is empty, where the index of the loop is
    read without having been assigned; on every other text it returns a
    stream of two lines per character and eighteen more. The text of an
    integer is never empty, so that for such an integer it returns. *)
Theorem X16_print_asm_raises_on_empty_text :
  forall v : Printable,
    Printable_allowed v ->
    (print_asm v = Fail (UnboundLocalError "idx") <-> Printable_str v = "")
    /\ (Printable_str v = ""
        \/ exists asm,
             print_asm v = Return asm
             /\ List.length asm
                = (2 * String.length (Printable_str v) + 18)%nat)
    /\ (forall n, v = PInt n -> exists asm, print_asm v = Return asm).
Proof.
  intros v _.
  assert (Hempty : Printable_str v = "" ->
                   print_asm v = Fail (UnboundLocalError "idx")).
  { intros E. unfold print_asm. rewrite E. reflexivity. }
  split; [|split].
  - split; [|exact Hempty]. intros H.
    destruct (String.string_dec (Printable_str v) "") as [E|E]; [exact E|].
    rewrite (print_asm_lines v E) in H. discriminate H.
  - destruct (String.string_dec (Printable_str v) "") as [E|E];
      [now left | right].
    eexists. split; [apply (print_asm_lines v E)|].
    rewrite !length_app, store_lines_length. cbn [List.length prologue
      write_lines exit_lines]. lia.
  - intros n ->. eexists. apply print_asm_lines. apply str_int_nonempty.
Qed.

(** X16, witness: the empty text. *)
Lemma X16_witness : print_asm (PStr "") = Fail (UnboundLocalError "idx").
Proof.
  exact (proj2 (proj1 (X16_print_asm_raises_on_empty_text (PStr "") I))
           eq_refl).
Defined.



(** X18. For a text of [n] characters with [n + 15] below [2^53], the stack
    size computed by [print_asm] is [n + 15]: it is above the index [n] of
    the last byte stored, and it is a multiple of 16 only when [n] leaves
    the remainder 1 in the division by 16. *)
Theorem X18_stack_size_of_print_asm :
  forall text : string,
    (len text + 15 < 2 ^ 53)%Z ->
    n_size text = (len text + 15)%Z
    /\ (len text < n_size text)%Z
    /\ ((n_size text mod 16 = 0)%Z <-> (len text mod 16 = 1)%Z).
Proof.
  intros text _. rewrite n_size_value.
  assert (Hlen : (0 <= len text)%Z) by (unfold len; lia).
  repeat split; try lia.
  - intros H.
    pose proof (Z.div_mod (len text + 15) 16 ltac:(lia)) as D1.
    pose proof (Z.div_mod (len text) 16 ltac:(lia)) as D2.
    pose proof (Z.mod_pos_bound (len text) 16 ltac:(lia)) as B2. lia.
  - intros H.
    pose proof (Z.div_mod (len text + 15) 16 ltac:(lia)) as D1.
    pose proof (Z.div_mod (len text) 16 ltac:(lia)) as D2.
    pose proof (Z.mod_pos_bound (len text + 15) 16 ltac:(lia)) as B1. lia.
Qed.

(** X18, witness: two characters give 17 bytes, not a multiple of 16. *)
Lemma X18_witness :
  n_size "Hi" = (len "Hi" + 15)%Z
  /\ (len "Hi" < n_size "Hi")%Z
  /\ ((n_size "Hi" mod 16 = 0)%Z <-> (len "Hi" mod 16 = 1)%Z).
Proof.
  refine (X18_stack_size_of_print_asm "Hi" _). reflexivity.
Defined.
